(** * llm_convo: the conversation analytics of parse.py and parse3.py

    A shallow embedding of the two scripts of the repository.  Both load a
    JSON export of chat conversations, pull out the first content part of
    every user-authored message and run three analyses over them: word
    frequencies, a topic model and a search for rephrased questions.

    Conventions of the embedding.
    - A value returned by [json.load] is a [json] tree.  Objects keep their
      entries in insertion order, which is the order Python dictionaries
      iterate in.
    - A Python exception is the [Raise] branch of [result]; the first
      exception met in evaluation order is the one that is returned.
    - Text is ASCII text: a [string] whose characters are the code points
      below 128; the helper functions of [str] and [re] are written out for
      that alphabet.
    - Floating point.  A topic weight is the rational number its binary64
      value denotes.  A computed cosine similarity is a parameter of the
      model, known to lie within a rounding bound of the exact cosine. *)

From Stdlib Require Import List String Ascii Bool Arith ZArith QArith Lia.
From Stdlib Require Import Permutation Sorted DecimalString DecimalNat.
From Stdlib Require Import Reals Qreals Lra.
From Stdlib Require Floats Uint63 OrderedTypeEx.
Import ListNotations.
Close Scope Q_scope.
Close Scope R_scope.

(** ** Python values and exceptions *)

Module Py.

Local Open Scope string_scope.
Local Open Scope list_scope.

(** What [json.load] can return. *)
#[warnings="-register-all"]
Inductive json : Type :=
| JNull
| JBool (b : bool)
| JInt (z : Z)
| JFloat (q : Q)
| JStr (s : string)
| JList (items : list json)
| JObj (entries : list (string * json)).

Inductive exn : Type :=
| AttributeError
| TypeError
| ValueError
| InvalidParameterError.

Inductive result (A : Type) : Type :=
| Ok (a : A)
| Raise (e : exn).

Arguments Ok {A} a.
Arguments Raise {A} e.

Definition bind {A B : Type} (m : result A) (k : A -> result B) : result B :=
  match m with
  | Ok a => k a
  | Raise e => Raise e
  end.

Notation "x <- m ;; k" := (bind m (fun x => k))
  (at level 61, m at next level, right associativity).

(** A loop that appends what each iteration yields and stops at the first
    exception. *)
Fixpoint for_each {A B : Type} (body : A -> result (list B)) (l : list A)
  : result (list B) :=
  match l with
  | [] => Ok []
  | x :: rest =>
      ys <- body x ;;
      zs <- for_each body rest ;;
      Ok (ys ++ zs)
  end.

(** [d[k]] for a dictionary kept as its list of entries. *)
Fixpoint lookup (k : string) (entries : list (string * json)) : option json :=
  match entries with
  | [] => None
  | (k', v) :: rest => if String.eqb k' k then Some v else lookup k rest
  end.

(** [v.get(k, default)]: only dictionaries have a [get] attribute. *)
Definition get (v : json) (k : string) (default : json) : result json :=
  match v with
  | JObj entries =>
      Ok (match lookup k entries with Some x => x | None => default end)
  | _ => Raise AttributeError
  end.

(** [v.values()] *)
Definition values (v : json) : result (list json) :=
  match v with
  | JObj entries => Ok (map snd entries)
  | _ => Raise AttributeError
  end.

(** [for x in v]: a list yields its items, a dictionary its keys, a string
    its characters; the other values are not iterable. *)
Definition iterate (v : json) : result (list json) :=
  match v with
  | JList items => Ok items
  | JObj entries => Ok (map (fun kv => JStr (fst kv)) entries)
  | JStr s => Ok (map (fun c => JStr (String c EmptyString)) (list_ascii_of_string s))
  | _ => Raise TypeError
  end.

(** Truth value of a JSON value in a condition. *)
Definition truthy (v : json) : bool :=
  match v with
  | JNull => false
  | JBool b => b
  | JInt z => negb (Z.eqb z 0)
  | JFloat q => negb (Qeq_bool q 0%Q)
  | JStr s => negb (String.eqb s "")
  | JList items => match items with [] => false | _ => true end
  | JObj entries => match entries with [] => false | _ => true end
  end.

(** [v == s] for a string literal [s]. *)
Definition eq_str (v : json) (s : string) : bool :=
  match v with
  | JStr s' => String.eqb s' s
  | _ => false
  end.

(** [isinstance(v, str)], as the comprehension filter
    [[m for m in messages if isinstance(m, str)]]. *)
Fixpoint strings_of (messages : list json) : list string :=
  match messages with
  | [] => []
  | JStr s :: rest => s :: strings_of rest
  | _ :: rest => strings_of rest
  end.

End Py.

Import Py.

(** ** The message extractor (parse.py 14-24, parse3.py 17-27) *)

Module Extractor.

Local Open Scope string_scope.
Local Open Scope list_scope.

(** The body of the inner loop: what one node appends to [user_messages]. *)
Definition node_messages (node : json) : result (list json) :=
  message <- get node "message" JNull ;;
  if truthy message then
    author <- get message "author" (JObj []) ;;
    role <- get author "role" JNull ;;
    if eq_str role "user" then
      content <- get message "content" (JObj []) ;;
      content_parts <- get content "parts" (JList []) ;;
      match content_parts with
      | JList (first :: _) => Ok [first]
      | _ => Ok []
      end
    else Ok []
  else Ok [].

(** The body of the outer loop. *)
Definition conversation_messages (conversation : json) : result (list json) :=
  mapping <- get conversation "mapping" (JObj []) ;;
  nodes <- values mapping ;;
  for_each node_messages nodes.

Definition extract_user_messages (conversations : json) : result (list json) :=
  items <- iterate conversations ;;
  for_each conversation_messages items.

End Extractor.

(** ** The methods of [str] and [re] the scripts call, on ASCII text *)

Module Str.

Local Open Scope list_scope.

Definition code (c : ascii) : nat := nat_of_ascii c.

Definition between (lo hi : nat) (c : ascii) : bool :=
  (lo <=? code c) && (code c <=? hi).

(** [c.isspace()]: tab to carriage return, the four separators and space. *)
Definition isspace (c : ascii) : bool := between 9 13 c || between 28 32 c.

Definition isupper (c : ascii) : bool := between 65 90 c.
Definition islower (c : ascii) : bool := between 97 122 c.
Definition isdigit (c : ascii) : bool := between 48 57 c.

(** The class [[a-zA-Z]]. *)
Definition isalpha (c : ascii) : bool := isupper c || islower c.

(** The class [\w]: letters, digits and the underscore. *)
Definition isword (c : ascii) : bool :=
  isalpha c || isdigit c || (code c =? 95).

Definition lower_char (c : ascii) : ascii :=
  if isupper c then ascii_of_nat (code c + 32) else c.

(** [s.lower()] *)
Fixpoint lower (s : string) : string :=
  match s with
  | EmptyString => EmptyString
  | String c rest => String (lower_char c) (lower rest)
  end.

(** [s.split()]: the maximal runs of characters that are not whitespace;
    [cur] is the run being read. *)
Fixpoint split_from (cur : string) (s : string) : list string :=
  match s with
  | EmptyString =>
      match cur with EmptyString => [] | _ => [cur] end
  | String c rest =>
      if isspace c then
        match cur with
        | EmptyString => split_from EmptyString rest
        | _ => cur :: split_from EmptyString rest
        end
      else split_from (cur ++ String c EmptyString)%string rest
  end.

Definition split (s : string) : list string := split_from EmptyString s.

Fixpoint lstrip (s : string) : string :=
  match s with
  | EmptyString => EmptyString
  | String c rest => if isspace c then lstrip rest else s
  end.

Fixpoint rstrip (s : string) : string :=
  match s with
  | EmptyString => EmptyString
  | String c rest =>
      match rstrip rest with
      | EmptyString => if isspace c then EmptyString else String c EmptyString
      | kept => String c kept
      end
  end.

(** [s.strip()] *)
Definition strip (s : string) : string := rstrip (lstrip s).

(** [s.endswith(suffix)] *)
Definition endswith (s suffix : string) : bool :=
  (String.length suffix <=? String.length s) &&
  String.eqb
    (substring (String.length s - String.length suffix) (String.length suffix) s)
    suffix.

(** [re.sub(r'[^a-zA-Z]', '', s)] *)
Fixpoint sub_non_alpha (s : string) : string :=
  match s with
  | EmptyString => EmptyString
  | String c rest =>
      if isalpha c then String c (sub_non_alpha rest) else sub_non_alpha rest
  end.

(** [w in words] for a list of strings. *)
Definition mem (w : string) (words : list string) : bool :=
  existsb (String.eqb w) words.

End Str.

(** ** [collections.Counter] *)

Module Collections.

(** A counter is a dictionary from token to count; its entries stay in the
    order in which the tokens were first counted. *)
Definition counter := list (string * nat).

(** [c[w] += 1] *)
Fixpoint incr (w : string) (c : counter) : counter :=
  match c with
  | [] => [(w, 1)]
  | (k, n) :: rest =>
      if String.eqb k w then (k, S n) :: rest else (k, n) :: incr w rest
  end.

(** [Counter(words)] counts the words from left to right. *)
Definition Counter (words : list string) : counter :=
  fold_left (fun c w => incr w c) words [].

(** One step of a stable sort by decreasing count: [x], which comes before
    all of [sorted] in the input, stays before the entries it ties with. *)
Fixpoint insert_desc (x : string * nat) (sorted : counter) : counter :=
  match sorted with
  | [] => [x]
  | y :: rest =>
      if snd x <? snd y then y :: insert_desc x rest else x :: y :: rest
  end.

(** [sorted(items, key=itemgetter(1), reverse=True)]: Python's sort is
    stable, also when reversed. *)
Definition sorted_by_count_desc (items : counter) : counter :=
  fold_right insert_desc [] items.

(** [c.most_common(n)] is [heapq.nlargest(n, c.items(), key=itemgetter(1))],
    which the library defines as the first [n] entries of the sort above; it
    is empty for [n <= 0]. *)
Definition most_common (n : Z) (c : counter) : counter :=
  firstn (Z.to_nat n) (sorted_by_count_desc c).

End Collections.

Import Str Collections.

(** ** The stoplist (parse.py 27-36, parse3.py 30-39) *)

Module Stoplist.

Local Open Scope string_scope.

Definition top_english_words : list string :=
  [ "the"; "be"; "to"; "of"; "and"; "a"; "in"; "that"; "have"; "I"; "it"; "for"; "not"; "on"; "with"; "he";
    "as"; "you"; "do"; "at"; "this"; "but"; "his"; "by"; "from"; "they"; "we"; "say"; "her"; "she"; "or";
    "an"; "will"; "my"; "one"; "all"; "would"; "there"; "their"; "what"; "so"; "up"; "out"; "if"; "about";
    "who"; "get"; "which"; "go"; "me"; "when"; "make"; "can"; "like"; "time"; "no"; "just"; "him"; "know";
    "take"; "people"; "into"; "year"; "your"; "good"; "some"; "could"; "them"; "see"; "other"; "than";
    "then"; "now"; "look"; "only"; "come"; "its"; "over"; "think"; "also"; "back"; "after"; "use"; "two";
    "how"; "our"; "work"; "first"; "well"; "way"; "even"; "new"; "want"; "because"; "any"; "these";
    "give"; "day"; "most"; "us" ].

End Stoplist.

(** ** The parts of scikit-learn the scripts call *)

Module Sklearn.

Local Open Scope list_scope.

(** The default analyser of both vectorisers: lowercase the document and
    take the matches of [\b\w\w+\b], which are the maximal runs of word
    characters that are at least two characters long; [cur] is the run being
    read. *)
Fixpoint word_runs (cur : string) (s : string) : list string :=
  match s with
  | EmptyString => if 2 <=? String.length cur then [cur] else []
  | String c rest =>
      if isword c then word_runs (cur ++ String c EmptyString)%string rest
      else if 2 <=? String.length cur then cur :: word_runs EmptyString rest
      else word_runs EmptyString rest
  end.

Definition tokenize (doc : string) : list string :=
  word_runs EmptyString (lower doc).

(** [sorted(set(terms))] *)
Fixpoint insert_term (t : string) (sorted : list string) : list string :=
  match sorted with
  | [] => [t]
  | u :: rest =>
      match String.compare t u with
      | Lt => t :: u :: rest
      | Eq => u :: rest
      | Gt => u :: insert_term t rest
      end
  end.

Definition sorted_terms (terms : list string) : list string :=
  fold_right insert_term [] terms.

(** The vocabulary [CountVectorizer()] learns from the documents. *)
Definition vocabulary (docs : list string) : list string :=
  sorted_terms (flat_map tokenize docs).

(** One row of the document-term matrix. *)
Definition count_vector (vocab : list string) (doc : string) : list nat :=
  map (fun term => count_occ string_dec (tokenize doc) term) vocab.

(** [CountVectorizer().fit_transform(docs)]: fitting raises [ValueError]
    ("empty vocabulary") when no document yields a token. *)
Definition CountVectorizer_fit_transform (docs : list string)
  : result (list (list nat)) :=
  match vocabulary docs with
  | [] => Raise ValueError
  | vocab => Ok (map (count_vector vocab) docs)
  end.

Fixpoint dot (u v : list nat) : nat :=
  match u, v with
  | x :: u', y :: v' => x * y + dot u' v'
  | _, _ => 0
  end.

(** What [cosine_similarity(X)[i, j]] computes for two rows of counts, as
    an exact real number: the rows are scaled to unit length and
    multiplied; a row without any count is left as it is, so its
    similarity with every row is 0. *)
Definition cosine_similarity (u v : list nat) : R :=
  if (dot u u =? 0) || (dot v v =? 0) then 0%R
  else (INR (dot u v) / (sqrt (INR (dot u u)) * sqrt (INR (dot v v))))%R.

(** [x < y] on rationals *)
Definition Qltb (x y : Q) : bool := negb (Qle_bool y x).

Definition Qnat (n : nat) : Q := inject_Z (Z.of_nat n).

(** Whether the exact cosine is above a threshold, decided without square
    roots: for a threshold that is not negative, compare the squares. *)
Definition cosine_exceeds (u v : list nat) (threshold : Q) : bool :=
  if (dot u u =? 0) || (dot v v =? 0) then Qltb threshold 0
  else if Qltb threshold 0 then true
  else Qltb (threshold * threshold * Qnat (dot u u * dot v v))
            (Qnat (dot u v * dot u v)).

(** The binary64 arithmetic of [cosine_similarity] stays abstract.  What is
    known of a computed similarity is that it lies within [rounding] of the
    exact cosine, so the comparison with a threshold is settled whenever
    the threshold is further than that from the exact value. *)
Class Similarity : Type := {
  (** [cosine_similarity(X)[i, j] > threshold] on the computed value *)
  similarity_exceeds : list nat -> list nat -> Q -> bool;
  rounding : Q;
  rounding_nonneg : (0 <= rounding)%Q;
  similarity_above : forall u v t,
    (Q2R t + Q2R rounding < cosine_similarity u v)%R ->
    similarity_exceeds u v t = true;
  similarity_below : forall u v t,
    (cosine_similarity u v + Q2R rounding <= Q2R t)%R ->
    similarity_exceeds u v t = false
}.

(** The terms a [TfidfVectorizer(stop_words=stop, lowercase=True)] finds in
    the documents. *)
Definition terms_without (stop : list string) (docs : list string) : list string :=
  filter (fun t => negb (mem t stop)) (flat_map tokenize docs).

(** What stays abstract: the stop word table of [stop_words='english'], the
    floating-point TF-IDF matrix, the variational inference of
    [LatentDirichletAllocation] and NumPy's generators and [argsort].  A
    weight is the rational number its binary64 value denotes. *)
Class Numeric : Type := {
  ENGLISH_STOP_WORDS : list string;
  tfidf : Type;
  generator : Type;
  (** [np.random.RandomState(seed)] *)
  RandomState : Z -> generator;
  (** the fitted [TfidfVectorizer] with its matrix *)
  fit_tfidf : list string -> tfidf;
  (** [get_feature_names_out()] *)
  feature_names : tfidf -> list string;
  (** inference from a generator: [components_] and the generator after
      the draws *)
  lda_infer : generator -> Z -> tfidf -> list (list Q) * generator;
  (** [a.argsort()] with the default sort kind, which is not stable *)
  argsort : list Q -> list nat;
  (** [components_] has shape [(n_components, n_features)] *)
  lda_shape : forall g k X,
    (1 <= k)%Z ->
    List.length (fst (lda_infer g k X)) = Z.to_nat k /\
    Forall (fun row => List.length row = List.length (feature_names X))
           (fst (lda_infer g k X));
  (** [argsort] returns the indices in an order that sorts the array *)
  argsort_perm : forall w, Permutation (argsort w) (seq 0 (List.length w));
  argsort_sorted : forall w,
    StronglySorted (fun i j => (nth i w 0 <= nth j w 0)%Q) (argsort w)
}.

Section WithNumeric.

Context {N : Numeric}.

(** The terms left with [stop_words='english']. *)
Definition tfidf_terms (docs : list string) : list string :=
  terms_without ENGLISH_STOP_WORDS docs.

(** [TfidfVectorizer(...).fit_transform(docs)]: raises [ValueError] when
    no term is left. *)
Definition TfidfVectorizer_fit_transform (docs : list string) : result tfidf :=
  match tfidf_terms docs with
  | [] => Raise ValueError
  | _ => Ok (fit_tfidf docs)
  end.

(** [LatentDirichletAllocation(n_components, random_state).fit(X).components_]
    as a computation over the process-wide generator of [numpy.random]:
    an integer [random_state] seeds a generator of the estimator's own,
    [None] draws from the process-wide one. *)
Definition LatentDirichletAllocation_fit
  (n_components : Z) (random_state : option Z) (X : tfidf)
  (ambient : generator) : result (list (list Q)) * generator :=
  if (n_components <? 1)%Z then (Raise InvalidParameterError, ambient)
  else
    match random_state with
    | Some seed => (Ok (fst (lda_infer (RandomState seed) n_components X)), ambient)
    | None =>
        let (components, ambient') := lda_infer ambient n_components X in
        (Ok components, ambient')
    end.

End WithNumeric.

End Sklearn.

Import Sklearn.

(** ** What the two scripts share word for word *)

Module Shared.

Local Open Scope string_scope.
Local Open Scope list_scope.

(** [a[:-top_words-1:-1]]: from the last index down to, and without, the
    index [-top_words-1]. *)
Definition top_slice (a : list nat) (top_words : Z) : list nat :=
  if (0 <=? top_words)%Z then firstn (Z.to_nat top_words) (rev a)
  else firstn (List.length a - Z.to_nat (- top_words)) (rev a).

(** [f"Topic {topic_idx}"] *)
Definition topic_key (topic_idx : nat) : string :=
  "Topic " ++ NilEmpty.string_of_uint (Nat.to_uint topic_idx).

(** [topics[key] = value] *)
Fixpoint dict_set (key : string) (value : list string)
  (d : list (string * list string)) : list (string * list string) :=
  match d with
  | [] => [(key, value)]
  | (k, v) :: rest =>
      if String.eqb k key then (k, value) :: rest
      else (k, v) :: dict_set key value rest
  end.

(** [enumerate(l)] counted from [start] *)
Fixpoint enumerate {A : Type} (start : nat) (l : list A) : list (nat * A) :=
  match l with
  | [] => []
  | x :: rest => (start, x) :: enumerate (S start) rest
  end.

Section WithNumeric.

Context {N : Numeric}.

(** [[words[i] for i in topic.argsort()[:-top_words-1:-1]]] *)
Definition top_words_list (words : list string) (topic : list Q) (top_words : Z)
  : list string :=
  map (fun i => nth i words "") (top_slice (argsort topic) top_words).

(** parse.py 51-59 and parse3.py 65-75, as a computation over the
    process-wide generator; the value is the dictionary [topics] (in
    parse.py, the lines printed). *)
Definition topic_modeling_analysis
  (messages : list json) (num_topics top_words : Z) (ambient : generator)
  : result (list (string * list string)) * generator :=
  match TfidfVectorizer_fit_transform (strings_of messages) with
  | Raise e => (Raise e, ambient)
  | Ok tfidf_matrix =>
      match LatentDirichletAllocation_fit num_topics (Some 42%Z) tfidf_matrix ambient with
      | (Raise e, ambient') => (Raise e, ambient')
      | (Ok components, ambient') =>
          let words := feature_names tfidf_matrix in
          (Ok (fold_left
                 (fun topics it =>
                    dict_set (topic_key (fst it))
                             (top_words_list words (snd it) top_words) topics)
                 (enumerate 0 components) []),
           ambient')
      end
  end.

End WithNumeric.

(** Line 63 of parse.py, 79 of parse3.py. *)
Definition questions_of (messages : list json) : list string :=
  filter (fun msg => endswith (strip msg) "?") (strings_of messages).

Section WithSimilarity.

Context {S : Similarity}.

(** parse.py 62-67 and parse3.py 78-83; the value is the list of at most
    five pairs. *)
Definition question_rephrasing_analysis
  (messages : list json) (similarity_threshold : Q)
  : result (list (string * string)) :=
  let questions := questions_of messages in
  vectorizer <- CountVectorizer_fit_transform questions ;;
  let n := List.length questions in
  let similar_questions :=
    flat_map
      (fun i =>
         flat_map
           (fun j =>
              if similarity_exceeds (nth i vectorizer []) (nth j vectorizer [])
                                    similarity_threshold
              then [(nth i questions "", nth j questions "")]
              else [])
           (seq (i + 1) (n - (i + 1))))
      (seq 0 n) in
  Ok (firstn 5 similar_questions).

End WithSimilarity.

End Shared.

(** ** parse.py *)

Module Parse.

Definition extract_user_messages := Extractor.extract_user_messages.

Definition top_english_words := Stoplist.top_english_words.

Definition question_rephrasing_analysis {S : Similarity} :=
  Shared.question_rephrasing_analysis (S := S).

Definition topic_modeling_analysis {N : Numeric} := Shared.topic_modeling_analysis (N:=N).

(** Line 44: the words of the lowercased string messages. *)
Definition words_of (messages : list json) : list string :=
  flat_map (fun message => split (lower message)) (strings_of messages).

(** Lines 43-48; the value is the list that the function prints. *)
Definition common_words_analysis
  (messages : list json) (top_n : Z) (filter_english : bool) : counter :=
  let words := words_of messages in
  let words :=
    if filter_english
    then filter (fun word => negb (mem word top_english_words)) words
    else words in
  most_common top_n (Counter words).

End Parse.

(** ** parse3.py *)

Module Parse3.

Definition extract_user_messages := Extractor.extract_user_messages.

Definition top_english_words := Stoplist.top_english_words.

Definition question_rephrasing_analysis {S : Similarity} :=
  Shared.question_rephrasing_analysis (S := S).

Definition topic_modeling_analysis {N : Numeric} := Shared.topic_modeling_analysis (N:=N).

(** Line 46: strip to letters, then lowercase. *)
Definition clean (word : string) : string := lower (sub_non_alpha word).

(** Lines 42-50. *)
Fixpoint clean_and_filter_words (words : list string) : list string :=
  match words with
  | [] => []
  | word :: rest =>
      let clean_word := clean word in
      if (1 <? String.length clean_word) && negb (mem clean_word top_english_words)
      then clean_word :: clean_and_filter_words rest
      else clean_and_filter_words rest
  end.

(** Line 54: the words of the string messages, case untouched. *)
Definition words_of (messages : list json) : list string :=
  flat_map split (strings_of messages).

(** Lines 53-58; the value is the entry stored under ["common_words"]. *)
Definition common_words_analysis
  (messages : list json) (top_n : Z) (filter_english : bool) : counter :=
  let words := words_of messages in
  let words := if filter_english then clean_and_filter_words words else words in
  most_common top_n (Counter words).

(** Lines 61-62. *)
Definition print_english_words (count : Z) : list string :=
  if (0 <=? count)%Z then firstn (Z.to_nat count) top_english_words
  else firstn (List.length top_english_words - Z.to_nat (- count)) top_english_words.

End Parse3.


(** ** The same computation in binary64

    The row normalisation and the product of two rows as IEEE binary64
    carries them out, one operation after the other and without fused
    multiply-add.  It only serves to evaluate the rounding on examples. *)

Module Binary64.

Local Open Scope list_scope.

Definition float := PrimFloat.float.

Definition of_count (n : nat) : float :=
  PrimFloat.of_uint63 (Uint63.of_Z (Z.of_nat n)).

Definition zero : float := of_count 0.

(** The Euclidean norm of a row. *)
Definition norm (u : list float) : float :=
  PrimFloat.sqrt
    (fold_left (fun acc x => PrimFloat.add acc (PrimFloat.mul x x)) u zero).

(** A row divided by its norm; a row of zeros is left as it is. *)
Definition normalize (u : list float) : list float :=
  let n := norm u in
  if PrimFloat.eqb n zero then u else map (fun x => PrimFloat.div x n) u.

Definition dot (u v : list float) : float :=
  fold_left (fun acc xy => PrimFloat.add acc (PrimFloat.mul (fst xy) (snd xy)))
            (combine u v) zero.

Definition cosine_similarity (u v : list nat) : float :=
  dot (normalize (map of_count u)) (normalize (map of_count v)).

End Binary64.

(** ** A small instance of the numeric layer, to run the topic model on
    examples *)

Module Toy.

Local Open Scope list_scope.

(** A stable sort of the indices by increasing weight. *)
Fixpoint insert_index (w : list Q) (i : nat) (sorted : list nat) : list nat :=
  match sorted with
  | [] => [i]
  | j :: rest =>
      if Qle_bool (nth i w 0%Q) (nth j w 0%Q) then i :: j :: rest
      else j :: insert_index w i rest
  end.

Definition argsort_stable (w : list Q) : list nat :=
  fold_right (insert_index w) [] (seq 0 (List.length w)).

(** Weights that depend on the generator: all equal for an even state,
    decreasing with the index for an odd one. *)
Definition weights (g : Z) (n_features : nat) : list Q :=
  map (fun i => if Z.even g then 1%Q else (- inject_Z (Z.of_nat i))%Q)
      (seq 0 n_features).

Definition infer (g : Z) (k : Z) (X : list string) : list (list Q) * Z :=
  (repeat (weights g (List.length X)) (Z.to_nat k), (g + 1)%Z).

Definition stop_words : list string := ["the"%string; "and"%string].

(** The obligations of the instance. *)

Lemma insert_index_perm (w : list Q) (i : nat) (l : list nat) :
  Permutation (insert_index w i l) (i :: l).
Proof.
  induction l as [|j l IH]; simpl.
  - apply Permutation_refl.
  - destruct (Qle_bool (nth i w 0%Q) (nth j w 0%Q)).
    + apply Permutation_refl.
    + apply perm_trans with (j :: i :: l); [apply perm_skip; exact IH|apply perm_swap].
Qed.

Lemma argsort_stable_perm (w : list Q) :
  Permutation (argsort_stable w) (seq 0 (List.length w)).
Proof.
  unfold argsort_stable.
  induction (seq 0 (List.length w)) as [|i l IH]; simpl.
  - apply perm_nil.
  - apply perm_trans with (i :: fold_right (insert_index w) [] l).
    + apply insert_index_perm.
    + apply perm_skip. exact IH.
Qed.

Lemma insert_index_sorted (w : list Q) (i : nat) (l : list nat) :
  StronglySorted (fun a b => (nth a w 0 <= nth b w 0)%Q) l ->
  StronglySorted (fun a b => (nth a w 0 <= nth b w 0)%Q) (insert_index w i l).
Proof.
  induction 1 as [|j l Hl IH Hj]; simpl.
  - constructor; constructor.
  - destruct (Qle_bool (nth i w 0%Q) (nth j w 0%Q)) eqn:E.
    + apply Qle_bool_iff in E. constructor.
      * constructor; assumption.
      * constructor; [exact E|].
        apply Forall_forall. intros z Hz. rewrite Forall_forall in Hj.
        apply Qle_trans with (nth j w 0%Q); [exact E|apply Hj; exact Hz].
    + assert (Hji : (nth j w 0 <= nth i w 0)%Q).
      { apply Qlt_le_weak. apply Qnot_le_lt. intros Hle.
        apply Qle_bool_iff in Hle. congruence. }
      constructor; [exact IH|].
      apply Forall_forall. intros z Hz.
      apply (Permutation_in _ (insert_index_perm w i l)) in Hz.
      destruct Hz as [<-|Hz]; [exact Hji|].
      rewrite Forall_forall in Hj. apply Hj. exact Hz.
Qed.

Lemma argsort_stable_sorted (w : list Q) :
  StronglySorted (fun a b => (nth a w 0 <= nth b w 0)%Q) (argsort_stable w).
Proof.
  unfold argsort_stable.
  induction (seq 0 (List.length w)) as [|i l IH]; simpl.
  - constructor.
  - apply insert_index_sorted. exact IH.
Qed.

Lemma infer_shape (g k : Z) (X : list string) :
  (1 <= k)%Z ->
  List.length (fst (infer g k X)) = Z.to_nat k /\
  Forall (fun row => List.length row = List.length X) (fst (infer g k X)).
Proof.
  intros _. unfold infer. simpl. split.
  - apply repeat_length.
  - apply Forall_forall. intros row Hrow. apply repeat_spec in Hrow. subst.
    unfold weights. rewrite length_map, length_seq. reflexivity.
Qed.

(** The instance: features are the sorted terms, generators are integers
    and a seed is its own generator. *)
Definition numeric : Numeric :=
  {| ENGLISH_STOP_WORDS := stop_words;
     tfidf := list string;
     generator := Z;
     RandomState := fun seed => seed;
     fit_tfidf := fun docs => sorted_terms (terms_without stop_words docs);
     feature_names := fun X => X;
     lda_infer := infer;
     argsort := argsort_stable;
     lda_shape := infer_shape;
     argsort_perm := argsort_stable_perm;
     argsort_sorted := argsort_stable_sorted |}.

(** A second instance, in which the weight of a term is its length in every
    topic, so that some weights differ and some tie. *)
Definition graded_infer (g : Z) (k : Z) (X : list string) : list (list Q) * Z :=
  (repeat (map (fun term => inject_Z (Z.of_nat (String.length term))) X) (Z.to_nat k),
   (g + 1)%Z).

Lemma graded_infer_shape (g k : Z) (X : list string) :
  (1 <= k)%Z ->
  List.length (fst (graded_infer g k X)) = Z.to_nat k /\
  Forall (fun row => List.length row = List.length X) (fst (graded_infer g k X)).
Proof.
  intros _. unfold graded_infer. simpl. split.
  - apply repeat_length.
  - apply Forall_forall. intros row Hrow. apply repeat_spec in Hrow. subst.
    apply length_map.
Qed.

Definition graded : Numeric :=
  {| ENGLISH_STOP_WORDS := stop_words;
     tfidf := list string;
     generator := Z;
     RandomState := fun seed => seed;
     fit_tfidf := fun docs => sorted_terms (terms_without stop_words docs);
     feature_names := fun X => X;
     lda_infer := graded_infer;
     argsort := argsort_stable;
     lda_shape := graded_infer_shape;
     argsort_perm := argsort_stable_perm;
     argsort_sorted := argsort_stable_sorted |}.

(** The exact cosine as a numeric layer, and one that is off by a small
    amount. *)

Lemma Qltb_lt (x y : Q) : Qltb x y = true <-> (x < y)%Q.
Proof.
  unfold Qltb. rewrite negb_true_iff. split.
  - intros H. apply Qnot_le_lt. intros Hle.
    apply Qle_bool_iff in Hle. congruence.
  - intros H. destruct (Qle_bool y x) eqn:E; [|reflexivity].
    apply Qle_bool_iff in E. exfalso. exact (Qlt_not_le _ _ H E).
Qed.

Lemma Q2R_Qnat (n : nat) : Q2R (Qnat n) = INR n.
Proof.
  unfold Qnat, Q2R. simpl. rewrite INR_IZR_INZ. unfold Rdiv.
  rewrite Rinv_1. apply Rmult_1_r.
Qed.

Lemma Qltb_Q2R (x y : Q) : Qltb x y = true <-> (Q2R x < Q2R y)%R.
Proof.
  rewrite Qltb_lt. split; [apply Qlt_Rlt|apply Rlt_Qlt].
Qed.

(** [cosine_exceeds] decides whether the cosine is above the threshold. *)
Lemma cosine_exceeds_spec (u v : list nat) (threshold : Q) :
  cosine_exceeds u v threshold = true <->
  (Q2R threshold < cosine_similarity u v)%R.
Proof.
  unfold cosine_exceeds, cosine_similarity.
  assert (H0 : Q2R 0 = 0%R) by (unfold Q2R; simpl; lra).
  destruct ((dot u u =? 0) || (dot v v =? 0)) eqn:Hz.
  - rewrite Qltb_Q2R, H0. reflexivity.
  - apply orb_false_iff in Hz. destruct Hz as [Hu Hv].
    apply Nat.eqb_neq in Hu, Hv.
    set (a := INR (dot u u)). set (b := INR (dot v v)). set (d := INR (dot u v)).
    assert (Ha : (0 < a)%R) by (apply lt_0_INR; lia).
    assert (Hb : (0 < b)%R) by (apply lt_0_INR; lia).
    assert (Hd : (0 <= d)%R) by apply pos_INR.
    assert (Hsa : (0 < sqrt a)%R) by (apply sqrt_lt_R0; exact Ha).
    assert (Hsb : (0 < sqrt b)%R) by (apply sqrt_lt_R0; exact Hb).
    assert (Hs : (0 < sqrt a * sqrt b)%R) by (apply Rmult_lt_0_compat; assumption).
    assert (Hsq : ((sqrt a * sqrt b) * (sqrt a * sqrt b) = a * b)%R).
    { replace ((sqrt a * sqrt b) * (sqrt a * sqrt b))%R
        with ((sqrt a * sqrt a) * (sqrt b * sqrt b))%R by ring.
      rewrite !sqrt_sqrt by lra. reflexivity. }
    assert (Hquot : (0 <= d / (sqrt a * sqrt b))%R).
    { apply Rmult_le_pos; [exact Hd|]. left. apply Rinv_0_lt_compat. exact Hs. }
    destruct (Qltb threshold 0) eqn:Hneg.
    + apply Qltb_Q2R in Hneg. rewrite H0 in Hneg.
      split; [intros _; lra|reflexivity].
    + assert (Ht : (0 <= Q2R threshold)%R).
      { destruct (Rle_or_lt 0 (Q2R threshold)) as [Hle|Hlt]; [exact Hle|].
        rewrite <- H0 in Hlt. apply Qltb_Q2R in Hlt. congruence. }
      rewrite Qltb_Q2R, !Q2R_mult, !Q2R_Qnat, !mult_INR.
      fold a b d. set (t := Q2R threshold) in *. set (s := (sqrt a * sqrt b)%R) in *.
      assert (Hdiv : (t < d / s <-> t * s < d)%R).
      { split; intros H.
        - apply (Rmult_lt_compat_r s) in H; [|exact Hs].
          unfold Rdiv in H. rewrite Rmult_assoc, Rinv_l, Rmult_1_r in H by lra.
          exact H.
        - apply (Rmult_lt_reg_r s); [exact Hs|].
          unfold Rdiv. rewrite Rmult_assoc, Rinv_l, Rmult_1_r by lra. exact H. }
      rewrite Hdiv.
      replace (t * t * (a * b))%R with ((t * s) * (t * s))%R
        by (rewrite <- Hsq; ring).
      assert (Hts : (0 <= t * s)%R) by (apply Rmult_le_pos; lra).
      split; intros H.
      * destruct (Rlt_or_le (t * s) d) as [Hlt|Hge]; [exact Hlt|].
        assert (d * d <= (t * s) * (t * s))%R by (apply Rmult_le_compat; lra).
        lra.
      * apply Rmult_le_0_lt_compat; lra.
Qed.

Lemma exact_above (u v : list nat) (t : Q) :
  (Q2R t + Q2R 0 < cosine_similarity u v)%R -> cosine_exceeds u v t = true.
Proof.
  intros H. apply cosine_exceeds_spec.
  replace (Q2R 0) with 0%R in H by (unfold Q2R; simpl; lra). lra.
Qed.

Lemma exact_below (u v : list nat) (t : Q) :
  (cosine_similarity u v + Q2R 0 <= Q2R t)%R -> cosine_exceeds u v t = false.
Proof.
  intros H. destruct (cosine_exceeds u v t) eqn:E; [|reflexivity].
  apply cosine_exceeds_spec in E.
  replace (Q2R 0) with 0%R in H by (unfold Q2R; simpl; lra). lra.
Qed.

Definition exact_similarity : Similarity :=
  {| similarity_exceeds := cosine_exceeds;
     rounding := 0%Q;
     rounding_nonneg := Qle_refl 0%Q;
     similarity_above := exact_above;
     similarity_below := exact_below |}.

(** A computed similarity that is [excess] above the exact one. *)
Definition excess : Q := (1 # 1000000000000000)%Q.

Definition raised_exceeds (u v : list nat) (t : Q) : bool :=
  cosine_exceeds u v (t - excess)%Q.

Lemma excess_nonneg : (0 <= excess)%Q.
Proof. discriminate. Qed.

Lemma raised_above (u v : list nat) (t : Q) :
  (Q2R t + Q2R excess < cosine_similarity u v)%R -> raised_exceeds u v t = true.
Proof.
  intros H. apply cosine_exceeds_spec.
  assert (He : (0 <= Q2R excess)%R).
  { replace 0%R with (Q2R 0) by (unfold Q2R; simpl; lra).
    apply Qle_Rle. exact excess_nonneg. }
  rewrite Q2R_minus. lra.
Qed.

Lemma raised_below (u v : list nat) (t : Q) :
  (cosine_similarity u v + Q2R excess <= Q2R t)%R -> raised_exceeds u v t = false.
Proof.
  intros H. unfold raised_exceeds.
  destruct (cosine_exceeds u v (t - excess)%Q) eqn:E; [|reflexivity].
  apply cosine_exceeds_spec in E. rewrite Q2R_minus in E. lra.
Qed.

Definition raised_similarity : Similarity :=
  {| similarity_exceeds := raised_exceeds;
     rounding := excess;
     rounding_nonneg := excess_nonneg;
     similarity_above := raised_above;
     similarity_below := raised_below |}.

End Toy.

(** ** The extraction as the specification words it *)

Module Spec.

Local Open Scope string_scope.
Local Open Scope list_scope.

(** The field [k] of a record, absent when the record has no such field. *)
Definition field (k : string) (v : json) : option json :=
  match v with
  | JObj entries => lookup k entries
  | _ => None
  end.

Definition absent_or_object (o : option json) : bool :=
  match o with
  | None | Some (JObj _) => true
  | _ => false
  end.

(** The values the extractor can read.  The safe defaults of [get] stand in
    for a key that is missing, not for a value of another type: a
    conversation is a record and so is its mapping when there is one; a node
    is a record; a message that counts as false (null, [false], 0, an empty
    string, list or record) is not looked at, any other message is a record
    whose author, when there is one, is a record; and the content is only
    read, and is then a record or missing, when the role of the author is
    "user". *)
Definition message_readable (message : json) : bool :=
  if truthy message then
    match message with
    | JObj m =>
        match lookup "author" m with
        | None => true
        | Some (JObj author) =>
            match lookup "role" author with
            | Some role =>
                if eq_str role "user" then absent_or_object (lookup "content" m)
                else true
            | None => true
            end
        | Some _ => false
        end
    | _ => false
    end
  else true.

Definition node_readable (node : json) : bool :=
  match node with
  | JObj entries =>
      match lookup "message" entries with
      | None => true
      | Some message => message_readable message
      end
  | _ => false
  end.

Definition conversation_readable (conversation : json) : bool :=
  match conversation with
  | JObj entries =>
      match lookup "mapping" entries with
      | None => true
      | Some (JObj nodes) => forallb node_readable (map snd nodes)
      | _ => false
      end
  | _ => false
  end.

(** The nodes of a conversation, in the order of its mapping. *)
Definition nodes_of (conversation : json) : list json :=
  match field "mapping" conversation with
  | Some (JObj nodes) => map snd nodes
  | _ => []
  end.

(** [content.parts[0]] of a node that holds a message whose author role is
    "user" and whose parts is a non-empty list. *)
Definition user_first_part (node : json) : option json :=
  match field "message" node with
  | Some message =>
      match field "author" message with
      | Some author =>
          match field "role" author with
          | Some role =>
              if eq_str role "user" then
                match field "content" message with
                | Some content =>
                    match field "parts" content with
                    | Some (JList (part :: _)) => Some part
                    | _ => None
                    end
                | None => None
                end
              else None
          | None => None
          end
      | None => None
      end
  | None => None
  end.

Definition contribution (node : json) : list json :=
  match user_first_part node with
  | Some part => [part]
  | None => []
  end.

(** The utterances: conversations in input order, nodes in mapping order. *)
Definition user_utterances (conversations : list json) : list json :=
  flat_map (fun conversation => flat_map contribution (nodes_of conversation))
           conversations.

(** The position at which [w] is first met in [words]. *)
Fixpoint first_index (w : string) (words : list string) : nat :=
  match words with
  | [] => 0
  | x :: rest => if String.eqb x w then 0 else S (first_index w rest)
  end.

(** Higher counts first, and [T] among equal counts. *)
Definition by_count_then (T : string * nat -> string * nat -> Prop)
  (a b : string * nat) : Prop :=
  snd b < snd a \/ (snd a = snd b /\ T a b).

(** [a] is ranked before [b]: a higher count, or the same count and met
    earlier. *)
Definition ranks_before (words : list string) (a b : string * nat) : Prop :=
  snd b < snd a \/
  (snd a = snd b /\ first_index (fst a) words < first_index (fst b) words).

(** [ranked] is the frequency table of [words]: every token that occurs,
    once, with the number of its occurrences, most frequent first and ties
    in the order of first encounter. *)
Definition ranking (words : list string) (ranked : list (string * nat)) : Prop :=
  NoDup (map fst ranked) /\
  (forall w c, In (w, c) ranked <-> c = count_occ string_dec words w /\ 0 < c) /\
  StronglySorted (ranks_before words) ranked.

(** [x] comes before [y] in [l]. *)
Definition before {A : Type} (l : list A) (x y : A) : Prop :=
  exists l1 l2 l3, l = l1 ++ x :: l2 ++ y :: l3.

(** Term [i] is listed before term [j] in a topic: a higher weight, or the
    same weight and [i] after [j] in the order [ascending] that [argsort]
    returned. *)
Definition listed_before (weights : list Q) (ascending : list nat) (i j : nat)
  : Prop :=
  (nth j weights 0 < nth i weights 0)%Q \/
  ((nth i weights 0 == nth j weights 0)%Q /\ before ascending j i).


(** The index pairs [(i, j)] with [i < j < n], listed row by row. *)
Definition index_pairs (n : nat) : list (nat * nat) :=
  flat_map (fun i => map (pair i) (seq (i + 1) (n - (i + 1)))) (seq 0 n).

End Spec.

(** ** The command line (parse.py 83-94, parse3.py 116-134)

    What each script does once [argparse] has read the arguments and the
    file is loaded.  Reading the file and formatting the results are left
    out: a run of parse3.py is modelled up to the dictionary it hands to
    [format_results], a run of parse.py by what its analyses print. *)

Module Cli.

Local Open Scope string_scope.
Local Open Scope list_scope.

(** The namespace of arguments, without the file and the output format.
    [print_english_words] is [None] when the flag is absent and the
    constant 100 when it is given without a number. *)
Record args : Type := {
  common_words : bool;
  topic_modeling : bool;
  rephrasing : bool;
  print_english_words : option Z;
  filter_english_words : bool;
  top_n : Z;
  num_topics : Z;
  top_words : Z;
  similarity_threshold : Q
}.

(** [if args.print_english_words:] *)
Definition wanted (count : option Z) : bool :=
  match count with
  | Some c => negb (c =? 0)%Z
  | None => false
  end.

(** The values of parse3.py's [results]. *)
Inductive value : Type :=
| Words (words : list string)
| Counts (common : counter)
| Pairs (pairs : list (string * string)).

Definition results : Type := list (string * value).

(** [d[key] = v] *)
Fixpoint set_item (key : string) (v : value) (d : results) : results :=
  match d with
  | [] => [(key, v)]
  | (k, old) :: rest =>
      if String.eqb k key then (k, v) :: rest else (k, old) :: set_item key v rest
  end.

(** [d.update(new)] *)
Definition update (d new : results) : results :=
  fold_left (fun acc kv => set_item (fst kv) (snd kv) acc) new d.

(** [any([common_words, topic_modeling, rephrasing, print_english_words])] *)
Definition any_analysis (a : args) : bool :=
  common_words a || topic_modeling a || rephrasing a || wanted (print_english_words a).

Section WithLibraries.

Context {N : Numeric} {S : Similarity}.

(** parse3.py 117-134. *)
Definition parse3_main (conversations : json) (a : args) (ambient : generator)
  : result results * generator :=
  match Parse3.extract_user_messages conversations with
  | Raise e => (Raise e, ambient)
  | Ok user_messages =>
      let run_all := negb (any_analysis a) in
      let common_words := common_words a || run_all in
      let topic_modeling := topic_modeling a || run_all in
      let rephrasing := rephrasing a || run_all in
      let results : results := [] in
      let results :=
        match print_english_words a with
        | Some count =>
            if wanted (Some count)
            then update results
                   [("top_english_words", Words (Parse3.print_english_words count))]
            else results
        | None => results
        end in
      let results :=
        if common_words
        then update results
               [("common_words",
                 Counts (Parse3.common_words_analysis
                           user_messages (top_n a) (filter_english_words a)))]
        else results in
      let (topics, ambient) :=
        if topic_modeling
        then Parse3.topic_modeling_analysis
               user_messages (num_topics a) (top_words a) ambient
        else (Ok [], ambient) in
      match topics with
      | Raise e => (Raise e, ambient)
      | Ok topics =>
          let results :=
            update results (map (fun kv => (fst kv, Words (snd kv))) topics) in
          if rephrasing then
            match Parse3.question_rephrasing_analysis
                    user_messages (similarity_threshold a) with
            | Raise e => (Raise e, ambient)
            | Ok pairs =>
                (Ok (update results [("similar_questions", Pairs pairs)]), ambient)
            end
          else (Ok results, ambient)
      end
  end.

(** What parse.py prints, one item per call of [print]. *)
Inductive printed : Type :=
| EnglishWords (count : Z) (words : list string)
| CommonWords (top_n : Z) (filtered : bool) (common : counter)
| Topic (topic_idx : nat) (words : list string)
| SimilarQuestions (threshold : Q) (pairs : list (string * string)).

(** parse.py 51-59: nothing is printed unless the model has been fitted,
    then one line per topic. *)
Definition print_topics
  (messages : list json) (num_topics top_words : Z) (ambient : generator)
  : result (list printed) * generator :=
  match TfidfVectorizer_fit_transform (strings_of messages) with
  | Raise e => (Raise e, ambient)
  | Ok tfidf_matrix =>
      match LatentDirichletAllocation_fit num_topics (Some 42%Z) tfidf_matrix ambient with
      | (Raise e, ambient') => (Raise e, ambient')
      | (Ok components, ambient') =>
          let words := feature_names tfidf_matrix in
          (Ok (map (fun it => Topic (fst it)
                                    (Shared.top_words_list words (snd it) top_words))
                   (Shared.enumerate 0 components)),
           ambient')
      end
  end.

(** parse.py 84-94: the output so far and the exception that ended the
    run, if one did. *)
Definition parse_main (conversations : json) (a : args) (ambient : generator)
  : (list printed * option exn) * generator :=
  match Parse.extract_user_messages conversations with
  | Raise e => (([], Some e), ambient)
  | Ok user_messages =>
      let out : list printed := [] in
      let out :=
        match print_english_words a with
        | Some count =>
            if wanted (Some count)
            then out ++ [EnglishWords count (Parse3.print_english_words count)]
            else out
        | None => out
        end in
      let out :=
        if common_words a
        then out ++ [CommonWords (top_n a) (filter_english_words a)
                       (Parse.common_words_analysis
                          user_messages (top_n a) (filter_english_words a))]
        else out in
      let (topics, ambient) :=
        if topic_modeling a
        then print_topics user_messages (num_topics a) (top_words a) ambient
        else (Ok [], ambient) in
      match topics with
      | Raise e => ((out, Some e), ambient)
      | Ok lines =>
          let out := out ++ lines in
          if rephrasing a then
            match Parse.question_rephrasing_analysis
                    user_messages (similarity_threshold a) with
            | Raise e => ((out, Some e), ambient)
            | Ok pairs =>
                ((out ++ [SimilarQuestions (similarity_threshold a) pairs], None),
                 ambient)
            end
          else ((out, None), ambient)
      end
  end.

End WithLibraries.

End Cli.

(** ** Auxiliary definitions and sample inputs *)

Local Open Scope string_scope.
Local Open Scope list_scope.

(** The tokens in the order of their first occurrence. *)
Definition first_seen (words : list string) : list string :=
  rev (nodup string_dec (rev words)).

(** An export with the cases the extractor tells apart. *)
Definition sample_export : list json :=
  [ JObj [ ("title", JStr "first");
           ("mapping", JObj
              [ ("n0", JObj [ ("id", JStr "n0"); ("message", JNull) ]);
                ("n1", JObj [ ("message", JObj
                    [ ("author", JObj [ ("role", JStr "user") ]);
                      ("content", JObj [ ("parts", JList [ JStr "a"; JStr "b" ]) ]) ]) ]);
                ("n2", JObj [ ("message", JObj
                    [ ("author", JObj [ ("role", JStr "assistant") ]);
                      ("content", JObj [ ("parts", JList [ JStr "c" ]) ]) ]) ]);
                ("n3", JObj [ ("message", JObj
                    [ ("author", JObj [ ("role", JStr "user") ]);
                      ("content", JObj [ ("parts", JList []) ]) ]) ]);
                ("n4", JObj [ ("message", JObj
                    [ ("content", JObj [ ("parts", JList [ JStr "d" ]) ]) ]) ]);
                ("n5", JObj [ ("message", JObj
                    [ ("author", JObj [ ("role", JStr "user") ]) ]) ]);
                ("n6", JObj []) ]) ];
    JObj [ ("title", JStr "no mapping") ];
    JObj [ ("mapping", JObj
              [ ("m0", JObj [ ("message", JObj
                    [ ("author", JObj [ ("role", JStr "user") ]);
                      ("content", JObj [ ("parts", JList [ JInt 7 ]) ]) ]) ]) ]) ] ].

(** An export with values the export format does not produce but the
    extractor gets by: messages that count as false, a content that is
    never read, authors without a role. *)
Definition lenient_export : list json :=
  [ JObj [ ("mapping", JObj
              [ ("f", JObj [ ("message", JBool false) ]);
                ("z", JObj [ ("message", JInt 0) ]);
                ("e", JObj [ ("message", JObj []) ]);
                ("a", JObj [ ("message", JObj
                    [ ("author", JObj [ ("role", JStr "assistant") ]);
                      ("content", JNull) ]) ]);
                ("r", JObj [ ("message", JObj
                    [ ("author", JObj [ ("role", JInt 1) ]);
                      ("content", JStr "text") ]) ]);
                ("n", JObj [ ("message", JObj
                    [ ("author", JObj [ ("name", JStr "user") ]);
                      ("content", JList []) ]) ]);
                ("s", JObj [ ("message", JObj
                    [ ("author", JObj [ ("role", JStr "user") ]);
                      ("content", JObj [ ("parts", JStr "text") ]) ]) ]);
                ("u", JObj [ ("message", JObj
                    [ ("author", JObj [ ("role", JStr "user") ]);
                      ("content", JObj [ ("parts", JList [ JStr "kept"; JNull ]) ]) ]) ]) ]) ];
    JObj [] ].

(** The same export with one more node, whose author is null. *)
Definition null_author_export : list json :=
  lenient_export ++
  [ JObj [ ("mapping", JObj
      [ ("x", JObj [ ("message", JObj [ ("author", JNull) ]) ]) ]) ] ].

(** Messages with more than five pairs of similar questions. *)
Definition six_questions : list json :=
  [ JStr "how do loops work?"; JInt 3; JStr "how do loops work ?";
    JStr "no question here"; JStr "How do LOOPS work?  ";
    JStr "how do loops work in python?"; JStr "what is a monad?" ].

(** Every exception of [r] is an [AttributeError]. *)
Definition only_attribute_errors {A : Type} (r : result A) : Prop :=
  forall e, r = Raise e -> e = AttributeError.

(** The words that [common_words_analysis] counts, in parse.py and in
    parse3.py. *)
Definition parse_counted (messages : list json) (filter_english : bool)
  : list string :=
  if filter_english
  then filter (fun word => negb (mem word Parse.top_english_words))
              (Parse.words_of messages)
  else Parse.words_of messages.

Definition parse3_counted (messages : list json) (filter_english : bool)
  : list string :=
  if filter_english
  then Parse3.clean_and_filter_words (Parse3.words_of messages)
  else Parse3.words_of messages.

(** Text within ASCII, as [s.isascii()] tells: every character is a code
    point below 128. *)
Definition isascii (s : string) : bool :=
  forallb (fun c => (code c <? 128)%nat) (list_ascii_of_string s).

(** The string messages lowercased, the others left as they are. *)
Definition lower_messages (messages : list json) : list json :=
  map (fun m => match m with JStr s => JStr (lower s) | _ => m end) messages.

(** A word: not empty and free of whitespace. *)
Definition is_word (w : string) : Prop :=
  w <> EmptyString /\ forallb (fun c => negb (isspace c)) (list_ascii_of_string w) = true.

(** A string made of whitespace only. *)
Definition all_space (s : string) : Prop :=
  forallb isspace (list_ascii_of_string s) = true.

(** How many terms [a[:-top_words-1:-1]] keeps of [n]. *)
Definition kept_terms (top_words : Z) (n : nat) : nat :=
  if (0 <=? top_words)%Z then Nat.min (Z.to_nat top_words) n
  else n - Z.to_nat (- top_words).

(** Two questions of a user, and the arguments of a run without flags. *)
Definition two_questions_export : json :=
  JList [ JObj [ ("mapping", JObj
    [ ("a", JObj [ ("message", JObj
        [ ("author", JObj [ ("role", JStr "user") ]);
          ("content", JObj [ ("parts", JList [ JStr "is it so?" ]) ]) ]) ]);
      ("b", JObj [ ("message", JObj
        [ ("author", JObj [ ("role", JStr "user") ]);
          ("content", JObj [ ("parts", JList [ JStr "it is so ?" ]) ]) ]) ]) ]) ] ].

Definition default_args : Cli.args :=
  {| Cli.common_words := false; Cli.topic_modeling := false;
     Cli.rephrasing := false; Cli.print_english_words := None;
     Cli.filter_english_words := false; Cli.top_n := 20;
     Cli.num_topics := 1; Cli.top_words := 3;
     Cli.similarity_threshold := 1 # 2 |}.

(** * Properties *)

Local Open Scope nat_scope.

(** ** Extraction *)

(** A loop whose body either yields [f x] or raises [e], according to
    [ok x]. *)
Lemma for_each_exact (A B : Type) (body : A -> result (list B))
  (ok : A -> bool) (f : A -> list B) (e : exn) (l : list A) :
  (forall x, In x l -> body x = if ok x then Ok (f x) else Raise e) ->
  for_each body l = if forallb ok l then Ok (flat_map f l) else Raise e.
Proof.
  induction l as [|x rest IH]; intros Hbody; simpl.
  - reflexivity.
  - rewrite (Hbody x) by (left; reflexivity).
    destruct (ok x); simpl; [|reflexivity].
    rewrite IH by (intros y Hy; apply Hbody; right; exact Hy).
    destruct (forallb ok rest); reflexivity.
Qed.

(** What the inner loop does with one node: it appends the contribution of
    a node it can read and raises on any other. *)
Lemma node_messages_exact (node : json) :
  Extractor.node_messages node =
  if Spec.node_readable node then Ok (Spec.contribution node)
  else Raise AttributeError.
Proof.
  unfold Extractor.node_messages, Spec.node_readable, Spec.contribution,
    Spec.user_first_part.
  destruct node as [| | | | | |entries]; try reflexivity.
  cbn [get bind Spec.field].
  destruct (lookup "message" entries) as [message|]; [|reflexivity].
  unfold Spec.message_readable.
  destruct (truthy message) eqn:Ht.
  - destruct message as [| | | | | |m]; try reflexivity.
    cbn [get bind Spec.field].
    destruct (lookup "author" m) as [author|]; [|reflexivity].
    destruct author as [| | | | | |a]; try reflexivity.
    cbn [get bind Spec.field].
    destruct (lookup "role" a) as [role|]; [|reflexivity].
    destruct (eq_str role "user"); [|reflexivity].
    destruct (lookup "content" m) as [content|]; [|reflexivity].
    destruct content as [| | | | | |c]; try reflexivity.
    cbn [get bind Spec.field Spec.absent_or_object].
    destruct (lookup "parts" c) as [parts|]; [|reflexivity].
    destruct parts as [| | | | |items|]; try reflexivity.
    destruct items; reflexivity.
  - destruct message as [| | | | | |m]; try reflexivity.
    destruct m; [reflexivity|discriminate Ht].
Qed.

Lemma conversation_messages_exact (conversation : json) :
  Extractor.conversation_messages conversation =
  if Spec.conversation_readable conversation
  then Ok (flat_map Spec.contribution (Spec.nodes_of conversation))
  else Raise AttributeError.
Proof.
  unfold Extractor.conversation_messages, Spec.conversation_readable, Spec.nodes_of.
  destruct conversation as [| | | | | |entries]; try reflexivity.
  cbn [get bind Spec.field].
  destruct (lookup "mapping" entries) as [mapping|]; [|reflexivity].
  destruct mapping as [| | | | | |nodes]; try reflexivity.
  cbn [values bind]. apply for_each_exact.
  intros node _. apply node_messages_exact.
Qed.

Lemma extract_user_messages_exact (conversations : list json) :
  Extractor.extract_user_messages (JList conversations) =
  if forallb Spec.conversation_readable conversations
  then Ok (Spec.user_utterances conversations)
  else Raise AttributeError.
Proof.
  unfold Extractor.extract_user_messages, Spec.user_utterances.
  cbn [iterate bind]. apply for_each_exact.
  intros conversation _. apply conversation_messages_exact.
Qed.

Lemma eq_str_true (v : json) (s : string) : eq_str v s = true <-> v = JStr s.
Proof.
  destruct v; simpl; try (split; [discriminate|intros H; discriminate H]).
  rewrite String.eqb_eq. split; [intros ->; reflexivity|intros H; injection H; auto].
Qed.

(** What a node contributes, read off its fields. *)
Lemma contribution_iff (node part : json) :
  Spec.contribution node = [part] <->
  exists message author content rest,
    Spec.field "message" node = Some message /\
    Spec.field "author" message = Some author /\
    Spec.field "role" author = Some (JStr "user") /\
    Spec.field "content" message = Some content /\
    Spec.field "parts" content = Some (JList (part :: rest)).
Proof.
  unfold Spec.contribution, Spec.user_first_part. split.
  - destruct (Spec.field "message" node) as [message|] eqn:Hm; [|discriminate].
    destruct (Spec.field "author" message) as [author|] eqn:Ha; [|discriminate].
    destruct (Spec.field "role" author) as [role|] eqn:Hr; [|discriminate].
    destruct (eq_str role "user") eqn:Hrole; [|discriminate].
    apply eq_str_true in Hrole. subst role.
    destruct (Spec.field "content" message) as [content|] eqn:Hc; [|discriminate].
    destruct (Spec.field "parts" content) as [parts|] eqn:Hp; [|discriminate].
    destruct parts as [| | | | |items|]; try discriminate.
    destruct items as [|first rest]; [discriminate|].
    intros H. injection H as ->.
    exists message, author, content, rest. auto.
  - intros [message [author [content [rest [Hm [Ha [Hr [Hc Hp]]]]]]]].
    rewrite Hm, Ha, Hr, Hc, Hp. reflexivity.
Qed.

(** C1, as amended.  On every list of conversations that the extractor can
    read (see [Spec.conversation_readable]: any of mapping, message, author,
    role, content and parts may be missing, and parts may be of any type)
    both scripts return without raising, and what they return is the first
    content part of every node that holds a message whose author role is
    "user" and whose parts is a non-empty list, conversations in input order
    and nodes in mapping order; every other node contributes nothing.  On
    every other list of conversations both scripts raise [AttributeError]
    and return no message at all. *)
Theorem extract_user_messages_spec (conversations : list json) :
  (forallb Spec.conversation_readable conversations = true ->
   Parse.extract_user_messages (JList conversations) =
     Ok (flat_map (fun conversation =>
                     flat_map Spec.contribution (Spec.nodes_of conversation))
                  conversations) /\
   Parse3.extract_user_messages (JList conversations) =
     Ok (flat_map (fun conversation =>
                     flat_map Spec.contribution (Spec.nodes_of conversation))
                  conversations)) /\
  (forallb Spec.conversation_readable conversations = false ->
   Parse.extract_user_messages (JList conversations) = Raise AttributeError /\
   Parse3.extract_user_messages (JList conversations) = Raise AttributeError) /\
  forall node,
    (forall part,
       Spec.contribution node = [part] <->
       exists message author content rest,
         Spec.field "message" node = Some message /\
         Spec.field "author" message = Some author /\
         Spec.field "role" author = Some (JStr "user") /\
         Spec.field "content" message = Some content /\
         Spec.field "parts" content = Some (JList (part :: rest))) /\
    (Spec.contribution node = [] \/ exists part, Spec.contribution node = [part]).
Proof.
  pose proof (extract_user_messages_exact conversations) as H.
  unfold Spec.user_utterances in H.
  split; [|split].
  - intros Hread. rewrite Hread in H. split; exact H.
  - intros Hread. rewrite Hread in H. split; exact H.
  - intros node. split; [intros part; apply contribution_iff|].
    unfold Spec.contribution. destruct (Spec.user_first_part node) as [part|].
    + right. exists part. reflexivity.
    + left. reflexivity.
Qed.

Lemma extract_user_messages_spec_witness :
  (forallb Spec.conversation_readable sample_export = true /\
   Parse3.extract_user_messages (JList sample_export) = Ok [ JStr "a"; JInt 7 ]) /\
  (forallb Spec.conversation_readable lenient_export = true /\
   Parse3.extract_user_messages (JList lenient_export) = Ok [ JStr "kept" ]) /\
  (forallb Spec.conversation_readable null_author_export = false /\
   Parse3.extract_user_messages (JList null_author_export) = Raise AttributeError).
Proof.
  split; [|split]; (split; [reflexivity|]).
  - exact (proj2 (proj1 (extract_user_messages_spec sample_export) eq_refl)).
  - exact (proj2 (proj1 (extract_user_messages_spec lenient_export) eq_refl)).
  - exact (proj2 (proj1 (proj2 (extract_user_messages_spec null_author_export)) eq_refl)).
Defined.

(** C1, as stated, fails: a field that is present but is not a record is
    not covered by the safe defaults.  A null author makes both scripts
    raise, and the messages of the well-formed nodes are lost with it; so
    does a content that is a string in a message of the user. *)
Lemma null_author_raises :
  Parse3.extract_user_messages (JList lenient_export) = Ok [ JStr "kept" ] /\
  Parse.extract_user_messages (JList null_author_export) = Raise AttributeError /\
  Parse3.extract_user_messages (JList null_author_export) = Raise AttributeError /\
  Parse3.extract_user_messages
    (JList [ JObj [ ("mapping", JObj
       [ ("n", JObj [ ("message", JObj
           [ ("author", JObj [ ("role", JStr "user") ]);
             ("content", JStr "hello") ]) ]) ]) ] ])
  = Raise AttributeError.
Proof. repeat split; reflexivity. Qed.

(** ** Counting and ranking *)

Lemma In_firstn (A : Type) (n : nat) (l : list A) (x : A) :
  In x (firstn n l) -> In x l.
Proof.
  intros Hin. rewrite <- (firstn_skipn n l). apply in_or_app. left. exact Hin.
Qed.

Lemma first_seen_snoc (words : list string) (w : string) :
  first_seen (words ++ [w]) =
  if in_dec string_dec w words then first_seen words else first_seen words ++ [w].
Proof.
  unfold first_seen. rewrite rev_app_distr. simpl.
  destruct (in_dec string_dec w (rev words)) as [Hin|Hnin];
    destruct (in_dec string_dec w words) as [Hin'|Hnin']; try reflexivity.
  - exfalso. apply Hnin'. apply in_rev. exact Hin.
  - exfalso. apply Hnin. apply in_rev in Hin'. exact Hin'.
Qed.

Lemma first_seen_In (words : list string) (w : string) :
  In w (first_seen words) <-> In w words.
Proof.
  unfold first_seen. rewrite <- in_rev, nodup_In, <- in_rev. reflexivity.
Qed.

Lemma first_seen_NoDup (words : list string) : NoDup (first_seen words).
Proof.
  unfold first_seen. apply NoDup_rev. apply NoDup_nodup.
Qed.

Lemma incr_absent (w : string) (f : string -> nat) (keys : list string) :
  ~ In w keys ->
  incr w (map (fun k => (k, f k)) keys) = map (fun k => (k, f k)) keys ++ [(w, 1)].
Proof.
  induction keys as [|k keys IH]; intros Hnin; simpl.
  - reflexivity.
  - destruct (String.eqb_spec k w) as [->|Hne].
    + exfalso. apply Hnin. left. reflexivity.
    + rewrite IH; [reflexivity|]. intros Hin. apply Hnin. right. exact Hin.
Qed.

Lemma incr_present (w : string) (f g : string -> nat) (keys : list string) :
  NoDup keys -> In w keys ->
  g w = S (f w) -> (forall k, k <> w -> g k = f k) ->
  incr w (map (fun k => (k, f k)) keys) = map (fun k => (k, g k)) keys.
Proof.
  intros Hnd Hin Hw Hother.
  induction keys as [|k keys IH]; simpl.
  - contradiction.
  - inversion Hnd as [|? ? Hk Hnd']; subst.
    destruct (String.eqb_spec k w) as [->|Hne].
    + rewrite Hw. f_equal.
      apply map_ext_in. intros k Hk'. rewrite Hother; [reflexivity|].
      intros ->. contradiction.
    + rewrite Hother by exact Hne. f_equal. apply IH; [exact Hnd'|].
      destruct Hin as [->|Hin]; [contradiction Hne; reflexivity|exact Hin].
Qed.

Lemma count_occ_snoc (words : list string) (w k : string) :
  count_occ string_dec (words ++ [w]) k =
  count_occ string_dec words k + (if string_dec w k then 1 else 0).
Proof.
  rewrite count_occ_app. simpl. destruct (string_dec w k); reflexivity.
Qed.

(** The counter in closed form: the tokens in first-seen order, each with
    the number of its occurrences. *)
Lemma Counter_closed_form (words : list string) :
  Counter words =
  map (fun k => (k, count_occ string_dec words k)) (first_seen words).
Proof.
  induction words as [|w words IH] using rev_ind.
  - reflexivity.
  - unfold Counter in *. rewrite fold_left_app. simpl. rewrite IH.
    rewrite first_seen_snoc.
    destruct (in_dec string_dec w words) as [Hin|Hnin].
    + apply incr_present.
      * apply first_seen_NoDup.
      * apply first_seen_In. exact Hin.
      * rewrite count_occ_snoc. destruct (string_dec w w); [lia|contradiction].
      * intros k Hk. rewrite count_occ_snoc.
        destruct (string_dec w k) as [->|]; [contradiction|lia].
    + rewrite incr_absent by (rewrite first_seen_In; exact Hnin).
      rewrite map_app. simpl. f_equal.
      * apply map_ext_in. intros k Hk. rewrite count_occ_snoc.
        destruct (string_dec w k) as [<-|]; [|f_equal; lia].
        exfalso. apply Hnin. apply first_seen_In. exact Hk.
      * rewrite count_occ_snoc.
        rewrite (proj1 (count_occ_not_In string_dec words w) Hnin).
        destruct (string_dec w w); [reflexivity|contradiction].
Qed.

Lemma first_index_lt (w : string) (words : list string) :
  In w words -> Spec.first_index w words < List.length words.
Proof.
  induction words as [|x words IH]; simpl; intros Hin.
  - contradiction.
  - destruct (String.eqb_spec x w) as [->|Hne]; [lia|].
    destruct Hin as [->|Hin]; [contradiction Hne; reflexivity|].
    apply IH in Hin. lia.
Qed.

Lemma first_index_snoc_in (w k : string) (words : list string) :
  In k words -> Spec.first_index k (words ++ [w]) = Spec.first_index k words.
Proof.
  induction words as [|x words IH]; simpl; intros Hin.
  - contradiction.
  - destruct (String.eqb_spec x k) as [->|Hne]; [reflexivity|].
    destruct Hin as [->|Hin]; [contradiction Hne; reflexivity|].
    rewrite IH by exact Hin. reflexivity.
Qed.

Lemma first_index_snoc_new (w : string) (words : list string) :
  ~ In w words -> Spec.first_index w (words ++ [w]) = List.length words.
Proof.
  induction words as [|x words IH]; simpl; intros Hnin.
  - rewrite String.eqb_refl. reflexivity.
  - destruct (String.eqb_spec x w) as [->|Hne].
    + exfalso. apply Hnin. left. reflexivity.
    + rewrite IH; [reflexivity|]. intros Hin. apply Hnin. right. exact Hin.
Qed.

Lemma StronglySorted_snoc (A : Type) (R : A -> A -> Prop) (l : list A) (x : A) :
  StronglySorted R l -> Forall (fun y => R y x) l -> StronglySorted R (l ++ [x]).
Proof.
  induction 1 as [|a l Hl IH Ha]; intros Hx; simpl.
  - constructor; constructor.
  - inversion Hx; subst. constructor.
    + apply IH. assumption.
    + apply Forall_app. split; [exact Ha|]. constructor; [assumption|constructor].
Qed.

Lemma StronglySorted_change (A : Type) (R R' : A -> A -> Prop) (l : list A) :
  (forall a b, In a l -> In b l -> R a b -> R' a b) ->
  StronglySorted R l -> StronglySorted R' l.
Proof.
  intros Himp Hs. induction Hs as [|a l Hl IH Ha].
  - constructor.
  - constructor.
    + apply IH. intros x y Hx Hy. apply Himp; right; assumption.
    + rewrite Forall_forall in *. intros y Hy. apply Himp.
      * left; reflexivity.
      * right; exact Hy.
      * apply Ha. exact Hy.
Qed.

Lemma StronglySorted_map (A B : Type) (g : A -> B) (R : B -> B -> Prop)
  (l : list A) :
  StronglySorted (fun a b => R (g a) (g b)) l -> StronglySorted R (map g l).
Proof.
  induction 1 as [|a l Hl IH Ha]; simpl; constructor.
  - exact IH.
  - apply Forall_forall. intros z Hz. apply in_map_iff in Hz.
    destruct Hz as [k [<- Hk]]. rewrite Forall_forall in Ha. apply Ha. exact Hk.
Qed.

(** The counter keeps its tokens in the order of first encounter. *)
Lemma first_seen_sorted (words : list string) :
  StronglySorted
    (fun a b => Spec.first_index a words < Spec.first_index b words)
    (first_seen words).
Proof.
  induction words as [|w words IH] using rev_ind.
  - constructor.
  - rewrite first_seen_snoc.
    assert (Hold : StronglySorted
      (fun a b => Spec.first_index a (words ++ [w]) < Spec.first_index b (words ++ [w]))
      (first_seen words)).
    { apply StronglySorted_change with (2 := IH).
      intros a b Ha Hb Hab. apply (proj1 (first_seen_In _ _)) in Ha.
      apply (proj1 (first_seen_In _ _)) in Hb.
      rewrite (first_index_snoc_in w a words Ha), (first_index_snoc_in w b words Hb).
      exact Hab. }
    destruct (in_dec string_dec w words) as [Hin|Hnin]; [exact Hold|].
    apply StronglySorted_snoc; [exact Hold|].
    apply Forall_forall. intros k Hk. apply (proj1 (first_seen_In _ _)) in Hk.
    rewrite first_index_snoc_in by exact Hk.
    rewrite first_index_snoc_new by exact Hnin.
    apply first_index_lt. exact Hk.
Qed.

(** *** The stable sort by decreasing count *)

Lemma insert_desc_perm (x : string * nat) (l : counter) :
  Permutation (insert_desc x l) (x :: l).
Proof.
  induction l as [|y l IH]; simpl.
  - apply Permutation_refl.
  - destruct (snd x <? snd y).
    + apply perm_trans with (y :: x :: l).
      * apply perm_skip. exact IH.
      * apply perm_swap.
    + apply Permutation_refl.
Qed.

Lemma sorted_by_count_desc_perm (l : counter) :
  Permutation (sorted_by_count_desc l) l.
Proof.
  induction l as [|x l IH]; simpl.
  - apply perm_nil.
  - apply perm_trans with (x :: sorted_by_count_desc l).
    + apply insert_desc_perm.
    + apply perm_skip. exact IH.
Qed.

Section Stable.

(** [T] is the order of the input; [Spec.by_count_then T] is what a stable
    sort by decreasing count turns it into. *)
Variable T : string * nat -> string * nat -> Prop.

Let by_count_then := Spec.by_count_then T.

Lemma insert_desc_sorted (x : string * nat) (l : counter) :
  StronglySorted by_count_then l -> Forall (T x) l ->
  StronglySorted by_count_then (insert_desc x l).
Proof.
  induction 1 as [|y l Hl IH Hy]; intros Hx; simpl.
  - constructor; constructor.
  - inversion Hx as [|? ? Hxy Hxl]; subst.
    destruct (Nat.ltb_spec (snd x) (snd y)) as [Hlt|Hge].
    + constructor.
      * apply IH. exact Hxl.
      * apply Forall_forall. intros z Hz.
        apply (Permutation_in _ (insert_desc_perm x l)) in Hz.
        destruct Hz as [<-|Hz].
        -- left. exact Hlt.
        -- rewrite Forall_forall in Hy. apply Hy. exact Hz.
    + constructor.
      * constructor; assumption.
      * constructor.
        -- unfold by_count_then.
           destruct (Nat.eq_dec (snd x) (snd y)) as [Heq|Hne]; [right; auto|left; lia].
        -- apply Forall_forall. intros z Hz.
           rewrite Forall_forall in Hy, Hxl.
           specialize (Hy z Hz). specialize (Hxl z Hz).
           unfold by_count_then in *.
           destruct (Nat.eq_dec (snd x) (snd z)) as [Heq|Hne]; [right; auto|].
           left. destruct Hy as [Hy|[Hy _]]; lia.
Qed.

Lemma sorted_by_count_desc_stable (l : counter) :
  StronglySorted T l -> StronglySorted by_count_then (sorted_by_count_desc l).
Proof.
  induction 1 as [|x l Hl IH Hx]; simpl.
  - constructor.
  - apply insert_desc_sorted; [exact IH|].
    apply Forall_forall. intros z Hz.
    apply (Permutation_in _ (sorted_by_count_desc_perm l)) in Hz.
    rewrite Forall_forall in Hx. apply Hx. exact Hz.
Qed.

End Stable.

(** The sorted counter of a word list is its frequency table. *)
Lemma ranking_of_words (words : list string) :
  Spec.ranking words (sorted_by_count_desc (Counter words)).
Proof.
  pose proof (sorted_by_count_desc_perm (Counter words)) as Hperm.
  rewrite Counter_closed_form in *.
  set (table := map (fun k => (k, count_occ string_dec words k)) (first_seen words)) in *.
  assert (Hkeys : map fst table = first_seen words).
  { unfold table. rewrite map_map. simpl. apply map_id. }
  split; [|split].
  - apply (Permutation_NoDup (l := map fst table)).
    + apply Permutation_map. apply Permutation_sym. exact Hperm.
    + rewrite Hkeys. apply first_seen_NoDup.
  - intros w c. split.
    + intros Hin. apply (Permutation_in _ Hperm) in Hin.
      unfold table in Hin. apply in_map_iff in Hin.
      destruct Hin as [k [Hk Hin]]. inversion Hk; subst.
      split; [reflexivity|].
      apply (proj1 (first_seen_In _ _)) in Hin.
      apply (count_occ_In string_dec). exact Hin.
    + intros [-> Hpos]. apply (Permutation_in _ (Permutation_sym Hperm)).
      unfold table. apply in_map_iff. exists w. split; [reflexivity|].
      apply first_seen_In. apply (count_occ_In string_dec). exact Hpos.
  - apply sorted_by_count_desc_stable
      with (T := fun a b => Spec.first_index (fst a) words < Spec.first_index (fst b) words).
    unfold table. apply StronglySorted_map. exact (first_seen_sorted words).
Qed.

(** Two lists with the same members, without repetition and sorted by the
    same asymmetric relation, are equal. *)
Lemma sorted_unique (A : Type) (R : A -> A -> Prop) (l1 l2 : list A) :
  (forall a b, R a b -> R b a -> False) ->
  NoDup l1 -> NoDup l2 ->
  StronglySorted R l1 -> StronglySorted R l2 ->
  (forall x, In x l1 <-> In x l2) ->
  l1 = l2.
Proof.
  intros Hasym. revert l2.
  induction l1 as [|a t1 IH]; intros l2 Hnd1 Hnd2 Hs1 Hs2 Hmem.
  - destruct l2 as [|b t2]; [reflexivity|].
    exfalso. apply (proj2 (Hmem b)). left. reflexivity.
  - destruct l2 as [|b t2].
    + exfalso. apply (proj1 (Hmem a)). left. reflexivity.
    + inversion Hnd1 as [|? ? Ha1 Hnd1']; subst.
      inversion Hnd2 as [|? ? Hb2 Hnd2']; subst.
      inversion Hs1 as [|? ? Hs1' Hf1]; subst.
      inversion Hs2 as [|? ? Hs2' Hf2]; subst.
      rewrite Forall_forall in Hf1, Hf2.
      assert (Hab : a = b).
      { destruct (proj1 (Hmem a) (or_introl eq_refl)) as [Hba|Hin2]; [auto|].
        destruct (proj2 (Hmem b) (or_introl eq_refl)) as [Hab|Hin1]; [auto|].
        exfalso. apply (Hasym a b); [apply Hf1; exact Hin1|apply Hf2; exact Hin2]. }
      subst b. f_equal. apply IH; try assumption.
      intros x. split; intros Hx.
      * destruct (proj1 (Hmem x) (or_intror Hx)) as [Heq|Hin]; [|exact Hin].
        subst x. contradiction.
      * destruct (proj2 (Hmem x) (or_intror Hx)) as [Heq|Hin]; [|exact Hin].
        subst x. contradiction.
Qed.

(** The frequency table of a word list is unique. *)
Lemma ranking_unique (words : list string) (r1 r2 : list (string * nat)) :
  Spec.ranking words r1 -> Spec.ranking words r2 -> r1 = r2.
Proof.
  intros [Hnd1 [Hin1 Hs1]] [Hnd2 [Hin2 Hs2]].
  apply sorted_unique with (R := Spec.ranks_before words).
  - unfold Spec.ranks_before. intros a b Hab Hba. lia.
  - apply NoDup_map_inv with (f := fst). exact Hnd1.
  - apply NoDup_map_inv with (f := fst). exact Hnd2.
  - exact Hs1.
  - exact Hs2.
  - intros [w c]. rewrite Hin1, Hin2. reflexivity.
Qed.

(** C2.  Without filtering, each script returns the first [top_n] entries of
    the frequency table of its tokens, which is the one list that holds
    every token once with its count, in descending count order, ties in the
    order of first encounter.  On ["cat dog"; "cat cat"] with [top_n = 2]
    both return [("cat", 3); ("dog", 1)]. *)
Theorem common_words_top_n (messages : list json) (top_n : Z) :
  (exists ranked,
     Spec.ranking (Parse.words_of messages) ranked /\
     (forall other, Spec.ranking (Parse.words_of messages) other -> other = ranked) /\
     Parse.common_words_analysis messages top_n false =
       firstn (Z.to_nat top_n) ranked) /\
  (exists ranked,
     Spec.ranking (Parse3.words_of messages) ranked /\
     (forall other, Spec.ranking (Parse3.words_of messages) other -> other = ranked) /\
     Parse3.common_words_analysis messages top_n false =
       firstn (Z.to_nat top_n) ranked) /\
  Parse.common_words_analysis [JStr "cat dog"; JStr "cat cat"] 2 false =
    [("cat", 3); ("dog", 1)] /\
  Parse3.common_words_analysis [JStr "cat dog"; JStr "cat cat"] 2 false =
    [("cat", 3); ("dog", 1)].
Proof.
  split; [|split; [|split; reflexivity]].
  - exists (sorted_by_count_desc (Counter (Parse.words_of messages))).
    split; [apply ranking_of_words|]. split; [|reflexivity].
    intros other Hother. apply (ranking_unique (Parse.words_of messages)).
    + exact Hother.
    + apply ranking_of_words.
  - exists (sorted_by_count_desc (Counter (Parse3.words_of messages))).
    split; [apply ranking_of_words|]. split; [|reflexivity].
    intros other Hother. apply (ranking_unique (Parse3.words_of messages)).
    + exact Hother.
    + apply ranking_of_words.
Qed.

(** ** Filtering *)

Lemma mem_In (w : string) (words : list string) :
  mem w words = true <-> In w words.
Proof.
  unfold mem. rewrite existsb_exists. split.
  - intros [x [Hin Heq]]. apply String.eqb_eq in Heq. subst. exact Hin.
  - intros Hin. exists w. split; [exact Hin|apply String.eqb_refl].
Qed.





(** ** The two variants of the unfiltered count *)

Lemma isspace_lower_char (c : ascii) : isspace (lower_char c) = isspace c.
Proof.
  destruct c as [[] [] [] [] [] [] [] []]; reflexivity.
Qed.

Lemma lower_snoc (s : string) (c : ascii) :
  lower (s ++ String c EmptyString) = (lower s ++ String (lower_char c) EmptyString)%string.
Proof.
  induction s as [|d s IH]; simpl; [reflexivity|]. rewrite IH. reflexivity.
Qed.

Lemma split_from_lower (s cur : string) :
  split_from (lower cur) (lower s) = map lower (split_from cur s).
Proof.
  revert cur. induction s as [|c s IH]; intros cur; simpl.
  - destruct cur; reflexivity.
  - rewrite isspace_lower_char. destruct (isspace c).
    + destruct cur; simpl.
      * apply (IH EmptyString).
      * f_equal. apply (IH EmptyString).
    + rewrite <- lower_snoc. apply IH.
Qed.

(** parse.py counts the lowercased words of parse3.py. *)
Lemma parse_words_lowercased (messages : list json) :
  Parse.words_of messages = map lower (Parse3.words_of messages).
Proof.
  unfold Parse.words_of, Parse3.words_of.
  induction (strings_of messages) as [|m ms IH]; simpl.
  - reflexivity.
  - rewrite map_app, IH. f_equal. apply (split_from_lower m EmptyString).
Qed.

Lemma count_occ_map_lower (words : list string) (w : string) :
  count_occ string_dec (map lower words) w =
  List.length (filter (fun x => String.eqb (lower x) w) words).
Proof.
  induction words as [|x words IH]; simpl.
  - reflexivity.
  - destruct (string_dec (lower x) w) as [Heq|Hne].
    + rewrite (proj2 (String.eqb_eq _ _) Heq). simpl. rewrite IH. reflexivity.
    + rewrite (proj2 (String.eqb_neq _ _) Hne). exact IH.
Qed.

(** C9.  With [filter_english] off, parse.py lowercases and does nothing
    else: it ranks the lowercased words, and the count of a token is the
    number of words that are this token once lowercased, so words that
    differ only in case are one token.  parse3.py does not lowercase, and
    the two entry points differ: on ["Cat cat"] the first returns
    [("cat", 2)], the second [("Cat", 1); ("cat", 1)]. *)
Theorem unfiltered_variants_differ :
  (forall messages top_n,
     Parse.common_words_analysis messages top_n false =
       most_common top_n (Counter (map lower (Parse3.words_of messages)))) /\
  (forall messages top_n w n,
     In (w, n) (Parse.common_words_analysis messages top_n false) ->
     n = List.length (filter (fun word => String.eqb (lower word) w)
                             (Parse3.words_of messages))) /\
  Parse.common_words_analysis [JStr "Cat cat"] 20 false = [("cat", 2)] /\
  Parse3.common_words_analysis [JStr "Cat cat"] 20 false = [("Cat", 1); ("cat", 1)] /\
  (exists messages top_n,
     Parse.common_words_analysis messages top_n false <>
     Parse3.common_words_analysis messages top_n false).
Proof.
  split; [|split; [|split; [reflexivity|split; [reflexivity|]]]].
  - intros messages top_n. unfold Parse.common_words_analysis.
    rewrite parse_words_lowercased. reflexivity.
  - intros messages top_n w n Hin.
    unfold Parse.common_words_analysis, most_common in Hin.
    apply In_firstn in Hin.
    destruct (ranking_of_words (Parse.words_of messages)) as [_ [Htab _]].
    apply Htab in Hin. destruct Hin as [-> _].
    rewrite parse_words_lowercased. apply count_occ_map_lower.
  - exists [JStr "Cat cat"], 20%Z. discriminate.
Qed.

(** ** The similarity detector *)

Lemma insert_term_not_nil (t : string) (l : list string) : insert_term t l <> [].
Proof.
  destruct l as [|u l]; simpl; [discriminate|].
  destruct (String.compare t u); discriminate.
Qed.

Lemma vocabulary_nil (docs : list string) :
  vocabulary docs = [] <-> flat_map tokenize docs = [].
Proof.
  unfold vocabulary, sorted_terms.
  destruct (flat_map tokenize docs) as [|t terms]; simpl.
  - split; reflexivity.
  - split; [|discriminate]. intros H. exfalso. exact (insert_term_not_nil _ _ H).
Qed.

Lemma fit_transform_ok (docs : list string) :
  vocabulary docs <> [] ->
  CountVectorizer_fit_transform docs =
  Ok (map (count_vector (vocabulary docs)) docs).
Proof.
  unfold CountVectorizer_fit_transform.
  destruct (vocabulary docs); [contradiction|reflexivity].
Qed.

Lemma fit_transform_raises (docs : list string) :
  vocabulary docs = [] -> CountVectorizer_fit_transform docs = Raise ValueError.
Proof.
  unfold CountVectorizer_fit_transform. intros ->. reflexivity.
Qed.

(** A nested comprehension with a condition is a filter over the pairs. *)
Lemma comprehension_as_filter (A : Type) (P : nat -> nat -> bool)
  (f : nat -> nat -> A) (row : nat -> list nat) (rows : list nat) :
  flat_map (fun i => flat_map (fun j => if P i j then [f i j] else []) (row i)) rows =
  map (fun p => f (fst p) (snd p))
      (filter (fun p => P (fst p) (snd p))
              (flat_map (fun i => map (pair i) (row i)) rows)).
Proof.
  induction rows as [|i rows IH]; simpl.
  - reflexivity.
  - rewrite filter_app, map_app, IH. f_equal.
    induction (row i) as [|j js IHj]; simpl.
    + reflexivity.
    + destruct (P i j); simpl; rewrite IHj; reflexivity.
Qed.

Lemma index_pairs_In (n i j : nat) :
  In (i, j) (Spec.index_pairs n) <-> i < j /\ j < n.
Proof.
  unfold Spec.index_pairs. rewrite in_flat_map. split.
  - intros [i' [Hi Hin]]. apply in_map_iff in Hin.
    destruct Hin as [j' [Heq Hj]]. inversion Heq; subst.
    apply in_seq in Hi, Hj. lia.
  - intros [Hij Hjn]. exists i. split.
    + apply in_seq. lia.
    + apply in_map. apply in_seq. lia.
Qed.






Lemma questions_of_In (messages : list json) (q : string) :
  In q (Shared.questions_of messages) <->
  In (JStr q) messages /\ endswith (strip q) "?" = true.
Proof.
  unfold Shared.questions_of. rewrite filter_In.
  assert (Hs : In q (strings_of messages) <-> In (JStr q) messages).
  { induction messages as [|m ms IH]; simpl; [reflexivity|].
    destruct m; simpl; rewrite IH; split; intros H;
      try (right; exact H);
      try (destruct H as [H|H]; [discriminate H|exact H]).
    - destruct H as [->|H]; [left; reflexivity|right; exact H].
    - destruct H as [H|H]; [left; inversion H; reflexivity|right; exact H]. }
  rewrite Hs. reflexivity.
Qed.


Lemma string_app_assoc (a b c : string) :
  ((a ++ b) ++ c)%string = (a ++ (b ++ c))%string.
Proof.
  induction a as [|x a IH]; simpl; [reflexivity|]. rewrite IH. reflexivity.
Qed.

Lemma string_app_nil_r (a : string) : (a ++ "")%string = a.
Proof.
  induction a as [|x a IH]; simpl; [reflexivity|]. rewrite IH. reflexivity.
Qed.

Lemma lstrip_split (s : string) :
  exists lead, s = (lead ++ lstrip s)%string /\ all_space lead.
Proof.
  induction s as [|c s [lead [Hs Hlead]]]; simpl.
  - exists EmptyString. split; reflexivity.
  - destruct (isspace c) eqn:Hc.
    + exists (String c lead). split.
      * simpl. rewrite <- Hs. reflexivity.
      * unfold all_space in *. simpl. rewrite Hc. exact Hlead.
    + exists EmptyString. split; reflexivity.
Qed.

Lemma rstrip_split (s : string) :
  exists tail, s = (rstrip s ++ tail)%string /\ all_space tail.
Proof.
  induction s as [|c s [tail [Hs Htail]]]; simpl.
  - exists EmptyString. split; reflexivity.
  - destruct (rstrip s) as [|d kept] eqn:Hr.
    + simpl in Hs. subst tail. destruct (isspace c) eqn:Hc.
      * exists (String c s). split; [reflexivity|].
        unfold all_space in *. simpl. rewrite Hc. exact Htail.
      * exists s. split; [reflexivity|exact Htail].
    + exists tail. split; [|exact Htail]. simpl. simpl in Hs. rewrite <- Hs.
      reflexivity.
Qed.

Lemma rstrip_all_space (s : string) : all_space s -> rstrip s = EmptyString.
Proof.
  unfold all_space. induction s as [|c s IH]; simpl; [reflexivity|].
  intros H. apply andb_prop in H. destruct H as [Hc Hs].
  rewrite (IH Hs), Hc. reflexivity.
Qed.

Lemma rstrip_keeps (s tail : string) (c : ascii) :
  isspace c = false -> all_space tail ->
  rstrip (s ++ String c tail) = (s ++ String c EmptyString)%string.
Proof.
  intros Hc Htail. induction s as [|d s IH]; simpl.
  - rewrite (rstrip_all_space tail Htail), Hc. reflexivity.
  - rewrite IH. destruct s; reflexivity.
Qed.

Lemma lstrip_keeps (s rest : string) (c : ascii) :
  isspace c = false ->
  exists kept, lstrip (s ++ String c rest) = (kept ++ String c rest)%string.
Proof.
  intros Hc. induction s as [|d s [kept IH]]; simpl.
  - rewrite Hc. exists EmptyString. reflexivity.
  - destruct (isspace d).
    + exists kept. exact IH.
    + exists (String d s). reflexivity.
Qed.

Lemma endswith_question (s : string) :
  endswith s "?" = true <-> exists body, s = (body ++ "?")%string.
Proof.
  unfold endswith. cbn [String.length].
  induction s as [|c s IH].
  - simpl. split; [discriminate|]. intros [body H]. destruct body; discriminate H.
  - destruct s as [|d s].
    + simpl. destruct (Ascii.eqb_spec c "?"%char) as [->|Hne]; split.
      * intros _. exists EmptyString. reflexivity.
      * reflexivity.
      * discriminate.
      * intros [body H]. exfalso. destruct body as [|b body].
        -- simpl in H. injection H as H. contradiction.
        -- simpl in H. injection H as _ H. destruct body; discriminate H.
    + replace (String.length (String c (String d s)) - 1)
        with (S (String.length (String d s) - 1)) by (simpl; lia).
      change (1 <=? String.length (String c (String d s))) with true.
      change (substring (S (String.length (String d s) - 1)) 1 (String c (String d s)))
        with (substring (String.length (String d s) - 1) 1 (String d s)).
      change (1 <=? String.length (String d s)) with true in IH.
      cbn [andb] in *. rewrite IH. split.
      * intros [body H]. exists (String c body). simpl. rewrite H. reflexivity.
      * intros [body H]. destruct body as [|b body].
        -- discriminate H.
        -- simpl in H. injection H as _ H. exists body. exact H.
Qed.

(** The test of line 63 of parse.py and 79 of parse3.py, read off the
    text: some text, a question mark, then nothing but whitespace. *)
Lemma question_shape (q : string) :
  endswith (strip q) "?" = true <->
  exists body tail, q = (body ++ "?" ++ tail)%string /\ all_space tail.
Proof.
  unfold strip.
  assert (Hq : isspace "?" = false) by reflexivity.
  split; intros H.
  - apply endswith_question in H. destruct H as [body Hbody].
    destruct (lstrip_split q) as [lead [Hlead _]].
    destruct (rstrip_split (lstrip q)) as [tail [Htail Hspace]].
    exists (lead ++ body)%string, tail. split; [|exact Hspace].
    rewrite Hlead at 1. rewrite Htail at 1. rewrite Hbody.
    rewrite !string_app_assoc. reflexivity.
  - destruct H as [body [tail [-> Hspace]]].
    destruct (lstrip_keeps body tail "?" Hq) as [kept Hkept].
    change ("?" ++ tail)%string with (String "?" tail).
    rewrite Hkept, (rstrip_keeps kept tail "?" Hq Hspace).
    apply endswith_question. exists kept. reflexivity.
Qed.

Lemma insert_term_In (t x : string) (l : list string) :
  In t (insert_term x l) <-> t = x \/ In t l.
Proof.
  induction l as [|u l IH]; simpl.
  - intuition.
  - destruct (String.compare x u) eqn:E; simpl.
    + apply String.compare_eq_iff in E. subst. intuition.
    + intuition.
    + rewrite IH. intuition.
Qed.

Lemma sorted_terms_In (t : string) (terms : list string) :
  In t (sorted_terms terms) <-> In t terms.
Proof.
  unfold sorted_terms. induction terms as [|x terms IH]; simpl.
  - reflexivity.
  - rewrite insert_term_In, IH. intuition.
Qed.

Lemma dot_self_pos (u : list nat) (x : nat) :
  In x u -> 0 < x -> 0 < dot u u.
Proof.
  induction u as [|y u IH]; simpl; intros Hin Hx.
  - contradiction.
  - destruct Hin as [->|Hin]; [nia|]. specialize (IH Hin Hx). lia.
Qed.

(** A question with a token has a row with a count in it. *)
Lemma count_vector_not_zero (docs : list string) (doc : string) :
  In doc docs -> tokenize doc <> [] ->
  dot (count_vector (vocabulary docs) doc) (count_vector (vocabulary docs) doc) <> 0.
Proof.
  intros Hdoc Htok.
  destruct (tokenize doc) as [|t ts] eqn:E; [contradiction|].
  assert (Hin : In t (vocabulary docs)).
  { unfold vocabulary. apply sorted_terms_In. apply in_flat_map.
    exists doc. split; [exact Hdoc|]. rewrite E. left. reflexivity. }
  assert (Hpos : 0 < dot (count_vector (vocabulary docs) doc)
                         (count_vector (vocabulary docs) doc)).
  { apply dot_self_pos with (x := count_occ string_dec (tokenize doc) t).
    - unfold count_vector. apply in_map_iff. exists t. split; [reflexivity|exact Hin].
    - apply (count_occ_In string_dec). rewrite E. left. reflexivity. }
  lia.
Qed.

Lemma cosine_self (u : list nat) : dot u u <> 0 -> cosine_similarity u u = 1%R.
Proof.
  intros Hu. unfold cosine_similarity.
  rewrite (proj2 (Nat.eqb_neq _ _) Hu). simpl.
  assert (Ha : (0 < INR (dot u u))%R) by (apply lt_0_INR; lia).
  rewrite sqrt_sqrt by lra. unfold Rdiv. apply Rinv_r. lra.
Qed.





Section SimilarityDetector.

Context {S : Similarity}.


(** *** Two questions *)

(** The detector on exactly two questions. *)
Lemma two_questions (messages : list json) (q1 q2 : string) (threshold : Q) :
  Shared.questions_of messages = [q1; q2] ->
  vocabulary [q1; q2] <> [] ->
  Shared.question_rephrasing_analysis messages threshold =
  Ok (if similarity_exceeds (count_vector (vocabulary [q1; q2]) q1)
                            (count_vector (vocabulary [q1; q2]) q2) threshold
      then [(q1, q2)] else []).
Proof.
  intros Hq Hvocab. unfold Shared.question_rephrasing_analysis.
  rewrite Hq, (fit_transform_ok [q1; q2] Hvocab). cbn [bind].
  cbn [List.length seq flat_map map nth Nat.add Nat.sub app].
  destruct (similarity_exceeds _ _ threshold); reflexivity.
Qed.

(** C4, as amended.  For exactly two questions in which every token occurs
    the same number of times, and which have a token, the exact cosine of
    the two count rows is 1: the pair is returned for every threshold that
    is below 1 by more than the rounding of the computed similarity, and
    is not returned for a threshold that is above 1 by the rounding or
    more.  Nothing is said of the thresholds in between, 1 among them. *)
Theorem identical_counts_boundary
  (messages : list json) (q1 q2 : string) (threshold : Q) :
  Shared.questions_of messages = [q1; q2] ->
  tokenize q1 <> [] ->
  (forall t, count_occ string_dec (tokenize q1) t =
             count_occ string_dec (tokenize q2) t) ->
  exists X,
    CountVectorizer_fit_transform [q1; q2] = Ok X /\
    cosine_similarity (nth 0 X []) (nth 1 X []) = 1%R /\
    ((threshold + rounding < 1)%Q ->
       Shared.question_rephrasing_analysis messages threshold = Ok [(q1, q2)]) /\
    ((1 + rounding <= threshold)%Q ->
       Shared.question_rephrasing_analysis messages threshold = Ok []).
Proof.
  intros Hq Htok Hsame.
  assert (Hvocab : vocabulary [q1; q2] <> []).
  { intros Hnil. apply vocabulary_nil in Hnil. simpl in Hnil.
    apply app_eq_nil in Hnil. apply Htok. exact (proj1 Hnil). }
  set (vocab := vocabulary [q1; q2]) in *.
  assert (Hrows : count_vector vocab q2 = count_vector vocab q1).
  { unfold count_vector. apply map_ext. intros t. symmetry. apply Hsame. }
  assert (Hnz : dot (count_vector vocab q1) (count_vector vocab q1) <> 0).
  { apply count_vector_not_zero; [left; reflexivity|exact Htok]. }
  assert (H1 : Q2R 1 = 1%R) by (unfold Q2R; simpl; lra).
  exists (map (count_vector vocab) [q1; q2]).
  split; [apply fit_transform_ok; exact Hvocab|].
  cbn [map nth]. rewrite Hrows.
  split; [apply cosine_self; exact Hnz|].
  rewrite (two_questions messages q1 q2 threshold Hq Hvocab).
  fold vocab. rewrite Hrows. split.
  - intros Hlt. rewrite similarity_above; [reflexivity|].
    rewrite (cosine_self _ Hnz). apply Qlt_Rlt in Hlt.
    rewrite Q2R_plus, H1 in Hlt. exact Hlt.
  - intros Hle. rewrite similarity_below; [reflexivity|].
    rewrite (cosine_self _ Hnz). apply Qle_Rle in Hle.
    rewrite Q2R_plus, H1 in Hle. exact Hle.
Qed.

(** *** Fewer than two questions *)

(** C5, as amended.  With fewer than two questions the detector returns the
    empty list when a question has a token, and raises [ValueError] when
    there is no question or the only question has no token. *)
Theorem fewer_than_two_questions (messages : list json) (threshold : Q) :
  List.length (Shared.questions_of messages) < 2 ->
  (flat_map tokenize (Shared.questions_of messages) <> [] ->
     Shared.question_rephrasing_analysis messages threshold = Ok []) /\
  (flat_map tokenize (Shared.questions_of messages) = [] ->
     Shared.question_rephrasing_analysis messages threshold = Raise ValueError) /\
  (Shared.questions_of messages = [] ->
     Shared.question_rephrasing_analysis messages threshold = Raise ValueError).
Proof.
  intros Hlen.
  assert (Hraise : flat_map tokenize (Shared.questions_of messages) = [] ->
    Shared.question_rephrasing_analysis messages threshold = Raise ValueError).
  { intros Hnil. unfold Shared.question_rephrasing_analysis.
    rewrite fit_transform_raises by (apply vocabulary_nil; exact Hnil).
    reflexivity. }
  split; [|split; [exact Hraise|]].
  - intros Htok. unfold Shared.question_rephrasing_analysis.
    rewrite fit_transform_ok
      by (intros Hnil; apply Htok; apply vocabulary_nil; exact Hnil).
    cbn [bind].
    destruct (Shared.questions_of messages) as [|q [|q' qs]]; simpl in Hlen.
    + reflexivity.
    + reflexivity.
    + lia.
  - intros Hq. apply Hraise. rewrite Hq. reflexivity.
Qed.

End SimilarityDetector.



Lemma identical_counts_boundary_witness :
  Shared.question_rephrasing_analysis (S := Toy.raised_similarity)
    [JStr "dog and cat?"; JStr "no"; JStr "Cat and dog ?"] (99 # 100)
    = Ok [("dog and cat?", "Cat and dog ?")] /\
  Shared.question_rephrasing_analysis (S := Toy.raised_similarity)
    [JStr "dog and cat?"; JStr "no"; JStr "Cat and dog ?"] (101 # 100) = Ok [].
Proof.
  assert (Hsame : forall t,
    count_occ string_dec (tokenize "dog and cat?") t =
    count_occ string_dec (tokenize "Cat and dog ?") t).
  { intros t. change (tokenize "dog and cat?") with ["dog"; "and"; "cat"].
    change (tokenize "Cat and dog ?") with ["cat"; "and"; "dog"].
    cbn [count_occ].
    destruct (string_dec "dog" t), (string_dec "and" t), (string_dec "cat" t);
      first [reflexivity | congruence]. }
  assert (Htok : tokenize "dog and cat?" <> []) by (vm_compute; discriminate).
  split.
  - destruct (identical_counts_boundary (S := Toy.raised_similarity)
                [JStr "dog and cat?"; JStr "no"; JStr "Cat and dog ?"]
                "dog and cat?" "Cat and dog ?" (99 # 100) eq_refl Htok Hsame)
      as [X [_ [_ [Hbelow _]]]].
    apply Hbelow. reflexivity.
  - destruct (identical_counts_boundary (S := Toy.raised_similarity)
                [JStr "dog and cat?"; JStr "no"; JStr "Cat and dog ?"]
                "dog and cat?" "Cat and dog ?" (101 # 100) eq_refl Htok Hsame)
      as [X [_ [_ [_ Habove]]]].
    apply Habove. discriminate.
Defined.

(** C4, as stated, fails: two questions with the same set of tokens but
    different counts have a cosine of 3 / sqrt 10, about 0.9487, and are
    not returned at the threshold 0.99, whatever the computed similarity
    is within a hundredth of the exact one. *)
Lemma identical_token_sets_not_similar :
  Shared.questions_of [JStr "cat cat dog?"; JStr "cat dog?"] =
    ["cat cat dog?"; "cat dog?"] /\
  (forall t, In t (tokenize "cat cat dog?") <-> In t (tokenize "cat dog?")) /\
  (99 # 100 < 1)%Q /\
  (forall S : Similarity,
     (rounding <= 1 # 100)%Q ->
     Shared.question_rephrasing_analysis
       [JStr "cat cat dog?"; JStr "cat dog?"] (99 # 100) = Ok []).
Proof.
  split; [reflexivity|]. split; [|split; [reflexivity|]].
  - intros t. change (tokenize "cat cat dog?") with ["cat"; "cat"; "dog"].
    change (tokenize "cat dog?") with ["cat"; "dog"]. simpl. tauto.
  - intros S Hr.
    rewrite (two_questions [JStr "cat cat dog?"; JStr "cat dog?"]
               "cat cat dog?" "cat dog?" (99 # 100) eq_refl)
      by (vm_compute; discriminate).
    change (vocabulary ["cat cat dog?"; "cat dog?"]) with ["cat"; "dog"].
    change (count_vector ["cat"; "dog"] "cat cat dog?") with [2; 1].
    change (count_vector ["cat"; "dog"] "cat dog?") with [1; 1].
    rewrite similarity_below; [reflexivity|].
    assert (Hcos : ~ (Q2R (98 # 100) <
                     cosine_similarity [2%nat; 1%nat] [1%nat; 1%nat])%R).
    { intros H. apply Toy.cosine_exceeds_spec in H. vm_compute in H. discriminate. }
    apply Qle_Rle in Hr.
    assert (H98 : Q2R (98 # 100) = (98 / 100)%R) by (unfold Q2R; simpl; lra).
    assert (H99 : Q2R (99 # 100) = (99 / 100)%R) by (unfold Q2R; simpl; lra).
    assert (H01 : Q2R (1 # 100) = (1 / 100)%R) by (unfold Q2R; simpl; lra).
    rewrite H98 in Hcos. rewrite H01 in Hr. rewrite H99. lra.
Qed.

(** At the threshold 1 itself the outcome depends on the rounding: the exact
    cosine does not exceed it, a similarity computed a little too high
    does. *)
Remark threshold_one_depends_on_rounding :
  Shared.question_rephrasing_analysis (S := Toy.exact_similarity)
    [JStr "dog and cat?"; JStr "dog and cat?"] 1 = Ok [] /\
  Shared.question_rephrasing_analysis (S := Toy.raised_similarity)
    [JStr "dog and cat?"; JStr "dog and cat?"] 1
    = Ok [("dog and cat?", "dog and cat?")].
Proof.
  split; vm_compute; reflexivity.
Qed.

(** In binary64 the similarity of a row with itself is 1 only up to
    rounding: it comes out above 1 for three equal counts and below 1 for
    two. *)
Remark binary64_self_similarity :
  PrimFloat.ltb (Binary64.of_count 1) (Binary64.cosine_similarity [1; 1; 1] [1; 1; 1])
    = true /\
  PrimFloat.ltb (Binary64.cosine_similarity [1; 1] [1; 1]) (Binary64.of_count 1)
    = true /\
  PrimFloat.eqb (Binary64.cosine_similarity [3; 2; 1] [3; 2; 1]) (Binary64.of_count 1)
    = true.
Proof.
  repeat split; vm_compute; reflexivity.
Qed.

Lemma fewer_than_two_questions_witness :
  Shared.question_rephrasing_analysis (S := Toy.exact_similarity)
    [JStr "is it?"; JStr "it is"] (1 # 2) = Ok [] /\
  Shared.question_rephrasing_analysis (S := Toy.exact_similarity)
    [JStr "it is"; JInt 4] (1 # 2) = Raise ValueError.
Proof.
  split.
  - apply (fewer_than_two_questions (S := Toy.exact_similarity)
             [JStr "is it?"; JStr "it is"] (1 # 2)).
    + simpl. lia.
    + vm_compute. discriminate.
  - apply (fewer_than_two_questions (S := Toy.exact_similarity)
             [JStr "it is"; JInt 4] (1 # 2)).
    + simpl. lia.
    + reflexivity.
Defined.

(** C5, as stated, fails: without any question the vectoriser has an empty
    vocabulary and raises, whatever the arithmetic. *)
Lemma no_question_raises :
  List.length (Shared.questions_of [JStr "hello there"; JStr "tell me more"]) < 2 /\
  (forall S : Similarity,
     Parse.question_rephrasing_analysis
       [JStr "hello there"; JStr "tell me more"] (1 # 2) = Raise ValueError /\
     Parse3.question_rephrasing_analysis
       [JStr "hello there"; JStr "tell me more"] (1 # 2) = Raise ValueError /\
     Parse3.question_rephrasing_analysis [] (1 # 2) = Raise ValueError).
Proof.
  split; [simpl; lia|]. intros S. repeat split; reflexivity.
Qed.

(** ** The topic model *)

Lemma topic_key_inj (i j : nat) : Shared.topic_key i = Shared.topic_key j -> i = j.
Proof.
  unfold Shared.topic_key. simpl. intros H. injection H as H.
  assert (Hu : Nat.to_uint i = Nat.to_uint j).
  { assert (Hs : Some (Nat.to_uint i) = Some (Nat.to_uint j)).
    { rewrite <- (NilEmpty.usu (Nat.to_uint i)), <- (NilEmpty.usu (Nat.to_uint j)).
      rewrite H. reflexivity. }
    injection Hs; auto. }
  rewrite <- (DecimalNat.Unsigned.of_to i), <- (DecimalNat.Unsigned.of_to j), Hu.
  reflexivity.
Qed.

Lemma dict_set_new (key : string) (value : list string)
  (d : list (string * list string)) :
  ~ In key (map fst d) -> Shared.dict_set key value d = d ++ [(key, value)].
Proof.
  induction d as [|[k v] d IH]; simpl; intros Hnin.
  - reflexivity.
  - destruct (String.eqb_spec k key) as [->|Hne].
    + exfalso. apply Hnin. left. reflexivity.
    + rewrite IH; [reflexivity|]. intros Hin. apply Hnin. right. exact Hin.
Qed.

Lemma enumerate_fst (A : Type) (start : nat) (l : list A) :
  map fst (Shared.enumerate start l) = seq start (List.length l).
Proof.
  revert start. induction l as [|x l IH]; intros start; simpl.
  - reflexivity.
  - rewrite IH. reflexivity.
Qed.

Lemma enumerate_snd (A : Type) (start : nat) (l : list A) :
  map snd (Shared.enumerate start l) = l.
Proof.
  revert start. induction l as [|x l IH]; intros start; simpl.
  - reflexivity.
  - rewrite IH. reflexivity.
Qed.

(** Assigning under keys that are all new appends the entries in order. *)
Lemma topics_loop (entry : list Q -> list string) (components : list (list Q))
  (start : nat) (d : list (string * list string)) :
  (forall i, start <= i -> ~ In (Shared.topic_key i) (map fst d)) ->
  fold_left
    (fun topics it => Shared.dict_set (Shared.topic_key (fst it)) (entry (snd it)) topics)
    (Shared.enumerate start components) d =
  d ++ map (fun it => (Shared.topic_key (fst it), entry (snd it)))
           (Shared.enumerate start components).
Proof.
  revert start d. induction components as [|row rows IH]; intros start d Hnew; simpl.
  - rewrite app_nil_r. reflexivity.
  - rewrite dict_set_new by (apply Hnew; lia).
    rewrite IH.
    + rewrite <- app_assoc. reflexivity.
    + intros i Hi Hin. rewrite map_app in Hin. apply in_app_or in Hin.
      destruct Hin as [Hin|Hin].
      * apply (Hnew i); [lia|exact Hin].
      * simpl in Hin. destruct Hin as [Heq|[]].
        apply topic_key_inj in Heq. lia.
Qed.

Lemma StronglySorted_rev (A : Type) (R : A -> A -> Prop) (l : list A) :
  StronglySorted R l -> StronglySorted (fun a b => R b a) (rev l).
Proof.
  induction 1 as [|a l Hl IH Ha]; simpl.
  - constructor.
  - apply StronglySorted_snoc; [exact IH|].
    apply Forall_forall. intros y Hy. apply in_rev in Hy.
    rewrite Forall_forall in Ha. apply Ha. exact Hy.
Qed.

Lemma before_rev (A : Type) (l : list A) (x y : A) :
  Spec.before (rev l) x y -> Spec.before l y x.
Proof.
  intros [l1 [l2 [l3 H]]]. exists (rev l3), (rev l2), (rev l1).
  rewrite <- (rev_involutive l), H.
  rewrite rev_app_distr. cbn [rev]. rewrite rev_app_distr. cbn [rev].
  rewrite <- !app_assoc. reflexivity.
Qed.

Lemma StronglySorted_before (A : Type) (R : A -> A -> Prop) (l : list A) :
  StronglySorted R l <-> (forall x y, Spec.before l x y -> R x y).
Proof.
  split.
  - intros Hs x y [l1 [l2 [l3 ->]]].
    induction l1 as [|a l1 IH]; simpl in Hs.
    + apply StronglySorted_inv in Hs. destruct Hs as [_ Hx].
      rewrite Forall_forall in Hx. apply Hx.
      apply in_or_app. right. left. reflexivity.
    + apply StronglySorted_inv in Hs. apply IH. exact (proj1 Hs).
  - induction l as [|a l IH]; intros H; constructor.
    + apply IH. intros x y [l1 [l2 [l3 ->]]]. apply H.
      exists (a :: l1), l2, l3. reflexivity.
    + apply Forall_forall. intros y Hy. apply in_split in Hy.
      destruct Hy as [l2 [l3 ->]]. apply H. exists [], l2, l3. reflexivity.
Qed.

Lemma before_asym (A : Type) (l : list A) (x y : A) :
  NoDup l -> Spec.before l x y -> Spec.before l y x -> False.
Proof.
  intros Hnd [l1 [l2 [l3 H1]]] [m1 [m2 [m3 H2]]]. subst l.
  revert m1 Hnd H2. induction l1 as [|a l1 IH]; intros m1 Hnd H2.
  - simpl in *. apply NoDup_cons_iff in Hnd. destruct Hnd as [Hx _].
    destruct m1 as [|b m1]; simpl in H2; injection H2 as Hhead Htail.
    + subst y. apply Hx. apply in_or_app. right. left. reflexivity.
    + apply Hx. rewrite Htail. apply in_or_app. right. right.
      apply in_or_app. right. left. reflexivity.
  - simpl in *. apply NoDup_cons_iff in Hnd. destruct Hnd as [Ha Hnd].
    destruct m1 as [|b m1]; simpl in H2; injection H2 as Hhead Htail.
    + subst y. apply Ha. apply in_or_app. right. right.
      apply in_or_app. right. left. reflexivity.
    + apply (IH m1 Hnd Htail).
Qed.

Section TopicModel.

Context {N : Numeric}.

Lemma argsort_NoDup (weights : list Q) : NoDup (argsort weights).
Proof.
  apply (Permutation_NoDup (Permutation_sym (argsort_perm weights))).
  apply seq_NoDup.
Qed.

(** No two indices are listed before each other. *)
Lemma listed_before_asym (weights : list Q) (i j : nat) :
  Spec.listed_before weights (argsort weights) i j ->
  Spec.listed_before weights (argsort weights) j i -> False.
Proof.
  intros [Hij|[Hij Bij]] [Hji|[Hji Bji]].
  - exact (Qlt_irrefl _ (Qlt_trans _ _ _ Hij Hji)).
  - rewrite Hji in Hij. exact (Qlt_irrefl _ Hij).
  - rewrite Hij in Hji. exact (Qlt_irrefl _ Hji).
  - exact (before_asym _ _ _ _ (argsort_NoDup weights) Bij Bji).
Qed.

(** Reversing what [argsort] returns lists the indices by decreasing
    weight, and indices of equal weight in the reverse of their order. *)
Lemma ties_reversed (weights : list Q) :
  StronglySorted (Spec.listed_before weights (argsort weights))
                 (rev (argsort weights)).
Proof.
  apply StronglySorted_before. intros x y Hxy. apply before_rev in Hxy.
  pose proof (proj1 (StronglySorted_before _ _ _) (argsort_sorted weights) y x Hxy)
    as Hle.
  unfold Spec.listed_before.
  simpl in Hle.
  destruct (Qlt_le_dec (nth y weights 0%Q) (nth x weights 0%Q)) as [Hlt|Hge].
  - left. exact Hlt.
  - right. split; [apply Qle_antisym; assumption|exact Hxy].
Qed.

(** The indices of one topic by decreasing weight. *)
Lemma descending_order (weights : list Q) :
  Permutation (rev (argsort weights)) (seq 0 (List.length weights)) /\
  StronglySorted (fun i j => (nth j weights 0 <= nth i weights 0)%Q)
                 (rev (argsort weights)).
Proof.
  split.
  - apply perm_trans with (argsort weights).
    + apply Permutation_sym. apply Permutation_rev.
    + apply argsort_perm.
  - apply (StronglySorted_rev _ _ _ (argsort_sorted weights)).
Qed.

Lemma topic_modeling_analysis_ok
  (messages : list json) (num_topics top_words : Z) (ambient : generator) :
  tfidf_terms (strings_of messages) <> [] ->
  (1 <= num_topics)%Z ->
  let X := fit_tfidf (strings_of messages) in
  Shared.topic_modeling_analysis messages num_topics top_words ambient =
  (Ok (map (fun it => (Shared.topic_key (fst it),
                       Shared.top_words_list (feature_names X) (snd it) top_words))
           (Shared.enumerate 0 (fst (lda_infer (RandomState 42) num_topics X)))),
   ambient).
Proof.
  intros Hterms Hk X. unfold Shared.topic_modeling_analysis,
    TfidfVectorizer_fit_transform, LatentDirichletAllocation_fit.
  destruct (tfidf_terms (strings_of messages)); [contradiction|].
  destruct (Z.ltb_spec num_topics 1) as [Hlt|_]; [lia|].
  fold X. f_equal. f_equal.
  apply (topics_loop
           (fun row => Shared.top_words_list (feature_names X) row top_words)
           (fst (lda_infer (RandomState 42) num_topics X)) 0 []).
  intros i _ [].
Qed.

(** C7, as amended.  When the documents leave at least one term and
    [num_topics] is at least 1, the result has one entry per topic, under
    the keys "Topic 0", "Topic 1", ... in this order; for [top_words >= 0]
    the entry of a topic lists the first [top_words] terms (all of them if
    there are fewer) of the whole vocabulary put in the order of decreasing
    weight in that topic, terms of equal weight in the reverse of the order
    in which [argsort] returns them; there is one such order.  Where
    [argsort] leaves equal weights in index order, as a stable sort does,
    the term of higher index comes first among them. *)
Theorem topic_model_output
  (messages : list json) (num_topics top_words : Z) (ambient : generator) :
  tfidf_terms (strings_of messages) <> [] ->
  (1 <= num_topics)%Z ->
  (0 <= top_words)%Z ->
  exists X topics,
    TfidfVectorizer_fit_transform (strings_of messages) = Ok X /\
    fst (Shared.topic_modeling_analysis messages num_topics top_words ambient)
      = Ok topics /\
    List.length topics = Z.to_nat num_topics /\
    map fst topics = map Shared.topic_key (seq 0 (Z.to_nat num_topics)) /\
    Forall2
      (fun weights terms =>
         exists order,
           Permutation order (seq 0 (List.length (feature_names X))) /\
           StronglySorted (Spec.listed_before weights (argsort weights)) order /\
           (forall other,
              Permutation other (seq 0 (List.length (feature_names X))) ->
              StronglySorted (Spec.listed_before weights (argsort weights)) other ->
              other = order) /\
           ((forall a b, Spec.before (argsort weights) a b ->
                         (nth a weights 0 == nth b weights 0)%Q -> a < b) ->
            StronglySorted
              (fun i j => (nth j weights 0 < nth i weights 0)%Q \/
                          ((nth i weights 0 == nth j weights 0)%Q /\ j < i))
              order) /\
           terms = map (fun i => nth i (feature_names X) "")
                       (firstn (Z.to_nat top_words) order))
      (fst (lda_infer (RandomState 42) num_topics X))
      (map snd topics).
Proof.
  intros Hterms Hk Htop.
  set (X := fit_tfidf (strings_of messages)).
  set (components := fst (lda_infer (RandomState 42) num_topics X)).
  destruct (lda_shape (RandomState 42) num_topics X Hk) as [Hrows Hcols].
  fold components in Hrows, Hcols.
  exists X. eexists. split; [|split].
  - unfold TfidfVectorizer_fit_transform.
    destruct (tfidf_terms (strings_of messages)); [contradiction|reflexivity].
  - rewrite (topic_modeling_analysis_ok messages num_topics top_words ambient Hterms Hk).
    reflexivity.
  - fold X. fold components. split; [|split].
    + rewrite length_map.
      rewrite <- (length_map fst), enumerate_fst, length_seq. exact Hrows.
    + rewrite map_map. simpl. rewrite <- (map_map fst Shared.topic_key).
      rewrite enumerate_fst, Hrows. reflexivity.
    + rewrite map_map. simpl.
      rewrite <- (map_map snd
        (fun row => Shared.top_words_list (feature_names X) row top_words)).
      rewrite enumerate_snd.
      clear Hrows. induction Hcols as [|row rows Hrow Hcols IH]; simpl.
      * constructor.
      * constructor; [|exact IH].
        exists (rev (argsort row)).
        destruct (descending_order row) as [Hperm _].
        rewrite Hrow in Hperm. split; [exact Hperm|].
        pose proof (ties_reversed row) as Hties.
        split; [exact Hties|]. split; [|split].
        -- intros other Hother Hsorted.
           apply sorted_unique with (R := Spec.listed_before row (argsort row)).
           ++ exact (listed_before_asym row).
           ++ apply (Permutation_NoDup (Permutation_sym Hother)). apply seq_NoDup.
           ++ apply (Permutation_NoDup (Permutation_sym Hperm)). apply seq_NoDup.
           ++ exact Hsorted.
           ++ exact Hties.
           ++ intros x. split; intros Hx.
              ** apply (Permutation_in _ (Permutation_sym Hperm)).
                 apply (Permutation_in _ Hother). exact Hx.
              ** apply (Permutation_in _ (Permutation_sym Hother)).
                 apply (Permutation_in _ Hperm). exact Hx.
        -- intros Hstable.
           apply StronglySorted_change with (R := Spec.listed_before row (argsort row));
             [|exact Hties].
           intros i j _ _ [Hlt|[Heq Hbefore]]; [left; exact Hlt|].
           right. split; [exact Heq|].
           apply (Hstable j i Hbefore). symmetry. exact Heq.
        -- unfold Shared.top_words_list, Shared.top_slice.
           destruct (Z.leb_spec 0 top_words) as [_|Hneg]; [reflexivity|lia].
Qed.

(** The scripts pass [random_state=42].  In the model the estimator then
    draws from a generator of its own: the analysis returns the same from
    every state of the process-wide generator and leaves that state as it
    was.  This only records how the model reads the seed; the inference
    itself is scikit-learn's and stays a parameter. *)
Remark seeded_fit_ignores_ambient
  (messages : list json) (num_topics top_words : Z) (g1 g2 : generator) :
  fst (Parse.topic_modeling_analysis messages num_topics top_words g1) =
  fst (Parse.topic_modeling_analysis messages num_topics top_words g2) /\
  fst (Parse3.topic_modeling_analysis messages num_topics top_words g1) =
  fst (Parse3.topic_modeling_analysis messages num_topics top_words g2) /\
  snd (Parse3.topic_modeling_analysis messages num_topics top_words g1) = g1.
Proof.
  unfold Parse.topic_modeling_analysis, Parse3.topic_modeling_analysis,
    Shared.topic_modeling_analysis, LatentDirichletAllocation_fit.
  destruct (TfidfVectorizer_fit_transform (strings_of messages)) as [X|e];
    [|repeat split].
  destruct (num_topics <? 1)%Z; repeat split.
Qed.

End TopicModel.

Lemma topic_model_output_witness :
  feature_names (fit_tfidf (Numeric := Toy.graded)
    ["cats chase mice"; "the dogs and cats"]) = ["cats"; "chase"; "dogs"; "mice"] /\
  fst (lda_infer (Numeric := Toy.graded) (RandomState 42) 2
         (fit_tfidf (Numeric := Toy.graded) ["cats chase mice"; "the dogs and cats"]))
  = [[4%Q; 5%Q; 4%Q; 4%Q]; [4%Q; 5%Q; 4%Q; 4%Q]] /\
  fst (Shared.topic_modeling_analysis (N := Toy.graded)
         [JStr "cats chase mice"; JInt 0; JStr "the dogs and cats"] 2 3 0%Z)
  = Ok [("Topic 0", ["chase"; "mice"; "dogs"]); ("Topic 1", ["chase"; "mice"; "dogs"])].
Proof.
  split; [reflexivity|]. split; [reflexivity|].
  assert (Hterms : tfidf_terms (N := Toy.graded)
            (strings_of [JStr "cats chase mice"; JInt 0; JStr "the dogs and cats"]) <> [])
    by (vm_compute; discriminate).
  destruct (topic_model_output (N := Toy.graded)
              [JStr "cats chase mice"; JInt 0; JStr "the dogs and cats"] 2 3 0%Z
              Hterms ltac:(lia) ltac:(lia))
    as [X [topics [_ [Hres _]]]].
  rewrite Hres. vm_compute in Hres.
  injection Hres as <-. reflexivity.
Defined.

(** C7, as stated, fails in two ways.  A corpus that is not empty can leave
    no term, and then the vectoriser raises; and the order among terms of
    equal weight is the reverse of the order in which [argsort] leaves
    them, so that with a stable [argsort] the term of higher vocabulary
    index comes first. *)
Lemma topic_model_raises_and_ties :
  strings_of [JStr "?"; JStr "a b c"] <> [] /\
  (forall (N : Numeric) (num_topics top_words : Z) (ambient : generator),
     fst (Shared.topic_modeling_analysis [JStr "?"; JStr "a b c"]
            num_topics top_words ambient) = Raise ValueError) /\
  feature_names (fit_tfidf (Numeric := Toy.numeric) ["apple banana"]) = ["apple"; "banana"] /\
  fst (lda_infer (Numeric := Toy.numeric) (RandomState 42) 1
         (fit_tfidf (Numeric := Toy.numeric) ["apple banana"])) = [[1%Q; 1%Q]] /\
  fst (Shared.topic_modeling_analysis (N := Toy.numeric) [JStr "apple banana"] 1 2 0%Z)
    = Ok [("Topic 0", ["banana"; "apple"])].
Proof.
  split; [discriminate|]. split; [|repeat split; reflexivity].
  intros N num_topics top_words ambient. reflexivity.
Qed.

(** With [random_state=None] the fit would read the process-wide generator:
    in the small instance two states give different components. *)
Remark unseeded_fit_reads_ambient :
  fst (LatentDirichletAllocation_fit (N := Toy.numeric) 1 None ["apple"; "banana"] 0%Z) <>
  fst (LatentDirichletAllocation_fit (N := Toy.numeric) 1 None ["apple"; "banana"] 1%Z) /\
  snd (LatentDirichletAllocation_fit (N := Toy.numeric) 1 None ["apple"; "banana"] 0%Z) <> 0%Z.
Proof.
  split; vm_compute; discriminate.
Qed.

(** ** Parts that are not strings *)

Lemma strings_of_app (l1 l2 : list json) :
  strings_of (l1 ++ l2) = strings_of l1 ++ strings_of l2.
Proof.
  induction l1 as [|m l1 IH]; simpl; [reflexivity|].
  destruct m; simpl; rewrite IH; reflexivity.
Qed.

Lemma strings_of_strings (l : list string) : strings_of (map JStr l) = l.
Proof.
  induction l as [|x l IH]; simpl; [reflexivity|]. rewrite IH. reflexivity.
Qed.

Lemma strings_of_skip (before after : list json) (v : json) :
  (forall s, v <> JStr s) ->
  strings_of (before ++ v :: after) = strings_of (before ++ after).
Proof.
  intros Hv. rewrite !strings_of_app. f_equal.
  destruct v; try reflexivity. exfalso. apply (Hv s). reflexivity.
Qed.

(** C10.  The extractor returns the first part whatever its type, and each
    analysis of parse3.py reads its messages only through the filter that
    keeps the strings: an entry that is not a string changes no result. *)
Theorem non_string_parts_ignored :
  (forall part rest,
     Parse3.extract_user_messages
       (JList [ JObj [ ("mapping", JObj [ ("n", JObj [ ("message", JObj
          [ ("author", JObj [ ("role", JStr "user") ]);
            ("content", JObj [ ("parts", JList (part :: rest)) ]) ]) ]) ]) ] ])
     = Ok [part]) /\
  (forall before v after top_n filter_english,
     (forall s, v <> JStr s) ->
     Parse3.common_words_analysis (before ++ v :: after) top_n filter_english =
     Parse3.common_words_analysis (before ++ after) top_n filter_english) /\
  (forall (N : Numeric) before v after num_topics top_words ambient,
     (forall s, v <> JStr s) ->
     Parse3.topic_modeling_analysis (before ++ v :: after) num_topics top_words ambient =
     Parse3.topic_modeling_analysis (before ++ after) num_topics top_words ambient) /\
  (forall (S : Similarity) before v after threshold,
     (forall s, v <> JStr s) ->
     Parse3.question_rephrasing_analysis (before ++ v :: after) threshold =
     Parse3.question_rephrasing_analysis (before ++ after) threshold) /\
  (forall messages top_n filter_english,
     Parse3.common_words_analysis messages top_n filter_english =
     Parse3.common_words_analysis (map JStr (strings_of messages)) top_n filter_english) /\
  (forall (N : Numeric) messages num_topics top_words ambient,
     Parse3.topic_modeling_analysis messages num_topics top_words ambient =
     Parse3.topic_modeling_analysis (map JStr (strings_of messages))
       num_topics top_words ambient) /\
  (forall (S : Similarity) messages threshold,
     Parse3.question_rephrasing_analysis messages threshold =
     Parse3.question_rephrasing_analysis (map JStr (strings_of messages)) threshold).
Proof.
  split; [intros part rest; reflexivity|].
  split; [|split; [|split; [|split; [|split]]]].
  - intros before v after top_n filter_english Hv.
    unfold Parse3.common_words_analysis, Parse3.words_of.
    rewrite (strings_of_skip before after v Hv). reflexivity.
  - intros N before v after num_topics top_words ambient Hv.
    unfold Parse3.topic_modeling_analysis, Shared.topic_modeling_analysis.
    rewrite (strings_of_skip before after v Hv). reflexivity.
  - intros S before v after threshold Hv.
    unfold Parse3.question_rephrasing_analysis, Shared.question_rephrasing_analysis,
      Shared.questions_of.
    rewrite (strings_of_skip before after v Hv). reflexivity.
  - intros messages top_n filter_english.
    unfold Parse3.common_words_analysis, Parse3.words_of.
    rewrite strings_of_strings. reflexivity.
  - intros N messages num_topics top_words ambient.
    unfold Parse3.topic_modeling_analysis, Shared.topic_modeling_analysis.
    rewrite strings_of_strings. reflexivity.
  - intros S messages threshold.
    unfold Parse3.question_rephrasing_analysis, Shared.question_rephrasing_analysis,
      Shared.questions_of.
    rewrite strings_of_strings. reflexivity.
Qed.

Lemma non_string_parts_ignored_witness :
  Parse3.extract_user_messages
    (JList [ JObj [ ("mapping", JObj [ ("n", JObj [ ("message", JObj
       [ ("author", JObj [ ("role", JStr "user") ]);
         ("content", JObj [ ("parts",
            JList [ JObj [ ("content_type", JStr "image") ]; JStr "caption" ]) ]) ]) ]) ]) ] ])
    = Ok [ JObj [ ("content_type", JStr "image") ] ] /\
  Parse3.common_words_analysis
    ([JStr "cat dog"] ++ JObj [ ("content_type", JStr "image") ] :: [JStr "cat"]) 5 false
    = [("cat", 2); ("dog", 1)] /\
  Parse3.question_rephrasing_analysis (S := Toy.exact_similarity)
    ([JStr "is it a cat?"] ++ JInt 7 :: [JStr "is it a cat ?"]) (1 # 2)
    = Ok [("is it a cat?", "is it a cat ?")].
Proof.
  destruct non_string_parts_ignored as [Hextract [Hwords [_ [Hquestions _]]]].
  split; [apply Hextract|]. split.
  - rewrite Hwords by discriminate. reflexivity.
  - rewrite Hquestions by discriminate. reflexivity.
Defined.

(** * Further properties of the code *)

(** ** The extractor on any input *)

Lemma for_each_app (A B : Type) (body : A -> result (list B)) (l1 l2 : list A) :
  for_each body (l1 ++ l2) =
  (xs <- for_each body l1 ;; ys <- for_each body l2 ;; Ok (xs ++ ys)).
Proof.
  induction l1 as [|x l1 IH]; simpl.
  - destruct (for_each body l2); reflexivity.
  - destruct (body x) as [ys|e]; simpl; [|reflexivity].
    rewrite IH. destruct (for_each body l1) as [zs|e]; simpl; [|reflexivity].
    destruct (for_each body l2) as [ws|e]; simpl; [|reflexivity].
    rewrite app_assoc. reflexivity.
Qed.

(** X2.  Extracting from two collections put one after the other is
    extracting from each and appending; the first exception met is the one
    raised. *)
Theorem extract_user_messages_app (first second : list json) :
  Extractor.extract_user_messages (JList (first ++ second)) =
  (xs <- Extractor.extract_user_messages (JList first) ;;
   ys <- Extractor.extract_user_messages (JList second) ;;
   Ok (xs ++ ys)).
Proof.
  unfold Extractor.extract_user_messages. cbn [iterate bind].
  apply for_each_app.
Qed.

Lemma only_attribute_errors_bind (A B : Type) (m : result A) (k : A -> result B) :
  only_attribute_errors m -> (forall a, only_attribute_errors (k a)) ->
  only_attribute_errors (x <- m ;; k x).
Proof.
  intros Hm Hk e. destruct m as [a|e']; simpl.
  - apply Hk.
  - intros H. injection H as <-. apply (Hm e' eq_refl).
Qed.

Lemma only_attribute_errors_get (v : json) (k : string) (d : json) :
  only_attribute_errors (get v k d).
Proof.
  intros e. destruct v; simpl; intros H; try discriminate H;
    injection H as <-; reflexivity.
Qed.

Lemma only_attribute_errors_ok (A : Type) (a : A) : only_attribute_errors (Ok a).
Proof. intros e H. discriminate H. Qed.

Lemma only_attribute_errors_for_each (A B : Type) (body : A -> result (list B))
  (l : list A) :
  (forall x, only_attribute_errors (body x)) ->
  only_attribute_errors (for_each body l).
Proof.
  intros Hbody. induction l as [|x l IH]; simpl.
  - apply only_attribute_errors_ok.
  - apply only_attribute_errors_bind; [apply Hbody|]. intros ys.
    apply only_attribute_errors_bind; [exact IH|]. intros zs.
    apply only_attribute_errors_ok.
Qed.

Lemma node_messages_errors (node : json) :
  only_attribute_errors (Extractor.node_messages node).
Proof.
  unfold Extractor.node_messages.
  apply only_attribute_errors_bind; [apply only_attribute_errors_get|].
  intros message. destruct (truthy message); [|apply only_attribute_errors_ok].
  apply only_attribute_errors_bind; [apply only_attribute_errors_get|].
  intros author.
  apply only_attribute_errors_bind; [apply only_attribute_errors_get|].
  intros role. destruct (eq_str role "user"); [|apply only_attribute_errors_ok].
  apply only_attribute_errors_bind; [apply only_attribute_errors_get|].
  intros content.
  apply only_attribute_errors_bind; [apply only_attribute_errors_get|].
  intros parts. destruct parts as [| | | | |items|];
    try apply only_attribute_errors_ok.
  destruct items; apply only_attribute_errors_ok.
Qed.

Lemma conversation_messages_errors (conversation : json) :
  only_attribute_errors (Extractor.conversation_messages conversation).
Proof.
  unfold Extractor.conversation_messages.
  apply only_attribute_errors_bind; [apply only_attribute_errors_get|].
  intros mapping. apply only_attribute_errors_bind.
  - intros e. destruct mapping; simpl; intros H; try discriminate H;
      injection H as <-; reflexivity.
  - intros nodes. apply only_attribute_errors_for_each.
    apply node_messages_errors.
Qed.

(** X1.  What the extractor raises depends only on the kind of the top-level
    value.  On null, a boolean or a number it raises [TypeError], those not
    being iterable.  On a list, a dictionary or a string it returns or
    raises [AttributeError] and nothing else; a dictionary or a string that
    is not empty always raises it, its items being strings, which have no
    [get]. *)
Theorem extract_user_messages_exceptions (conversations : json) :
  match conversations with
  | JNull | JBool _ | JInt _ | JFloat _ =>
      Extractor.extract_user_messages conversations = Raise TypeError
  | JList _ =>
      only_attribute_errors (Extractor.extract_user_messages conversations)
  | JObj entries =>
      Extractor.extract_user_messages conversations =
      match entries with [] => Ok [] | _ => Raise AttributeError end
  | JStr s =>
      Extractor.extract_user_messages conversations =
      match s with EmptyString => Ok [] | _ => Raise AttributeError end
  end.
Proof.
  destruct conversations as [| | | | s |items|entries]; try reflexivity.
  - destruct s; reflexivity.
  - unfold Extractor.extract_user_messages. cbn [iterate bind].
    apply only_attribute_errors_for_each. apply conversation_messages_errors.
  - destruct entries as [|[k v] rest]; reflexivity.
Qed.

Lemma for_each_ok (A B : Type) (body : A -> result (list B)) (f : A -> list B)
  (l : list A) (out : list B) :
  (forall x r, In x l -> body x = Ok r -> r = f x) ->
  for_each body l = Ok out -> out = flat_map f l.
Proof.
  revert out. induction l as [|x l IH]; intros out Hbody; simpl.
  - intros H. injection H as <-. reflexivity.
  - destruct (body x) as [ys|e] eqn:Hx; simpl; [|discriminate].
    destruct (for_each body l) as [zs|e] eqn:Hl; simpl; [|discriminate].
    intros H. injection H as <-.
    rewrite (Hbody x ys (or_introl eq_refl) Hx).
    rewrite (IH zs); [reflexivity| |reflexivity].
    intros y r Hy. apply Hbody. right. exact Hy.
Qed.

(** Whenever the loop body returns, it returns the contribution of the
    node, whatever the shape of the node. *)
Lemma node_messages_sound (node : json) (r : list json) :
  Extractor.node_messages node = Ok r -> r = Spec.contribution node.
Proof.
  unfold Extractor.node_messages, Spec.contribution, Spec.user_first_part.
  destruct node as [| | | | | |entries]; try discriminate.
  cbn [get bind Spec.field].
  destruct (lookup "message" entries) as [message|].
  2: { cbn [truthy]. intros H. injection H as <-. reflexivity. }
  destruct (truthy message) eqn:Ht.
  - destruct message as [| | | | | |m]; try discriminate.
    cbn [get bind Spec.field].
    destruct (lookup "author" m) as [author|].
    + destruct author as [| | | | | |a]; try discriminate.
      cbn [get bind Spec.field].
      destruct (lookup "role" a) as [role|]; cbn [eq_str].
      * destruct (eq_str role "user").
        -- destruct (lookup "content" m) as [content|].
           ++ destruct content as [| | | | | |c]; try discriminate.
              cbn [get bind Spec.field].
              destruct (lookup "parts" c) as [parts|].
              ** destruct parts as [| | | | |items|];
                   try (intros H; injection H as <-; reflexivity).
                 destruct items; intros H; injection H as <-; reflexivity.
              ** intros H. injection H as <-. reflexivity.
           ++ cbn [get bind lookup]. intros H. injection H as <-. reflexivity.
        -- intros H. injection H as <-. reflexivity.
      * intros H. injection H as <-. reflexivity.
    + cbn [get bind lookup eq_str]. intros H. injection H as <-. reflexivity.
  - intros H. injection H as <-.
    destruct message as [| | | | | |m]; try reflexivity.
    destruct m; [reflexivity|discriminate Ht].
Qed.

Lemma conversation_messages_sound (conversation : json) (r : list json) :
  Extractor.conversation_messages conversation = Ok r ->
  r = flat_map Spec.contribution (Spec.nodes_of conversation).
Proof.
  unfold Extractor.conversation_messages, Spec.nodes_of.
  destruct conversation as [| | | | | |entries]; try discriminate.
  cbn [get bind Spec.field].
  destruct (lookup "mapping" entries) as [mapping|].
  - destruct mapping as [| | | | | |nodes]; try discriminate.
    cbn [values bind]. apply for_each_ok.
    intros node r' _. apply node_messages_sound.
  - cbn [values bind map for_each]. intros H. injection H as <-. reflexivity.
Qed.

Lemma contribution_length (node : json) : List.length (Spec.contribution node) <= 1.
Proof.
  unfold Spec.contribution. destruct (Spec.user_first_part node); simpl; lia.
Qed.

Lemma flat_map_short (A B : Type) (f : A -> list B) (l : list A) :
  (forall x, List.length (f x) <= 1) ->
  List.length (flat_map f l) <= List.length l.
Proof.
  intros Hf. induction l as [|x l IH]; simpl; [lia|].
  rewrite length_app. specialize (Hf x). lia.
Qed.

(** X3.  Whenever the extractor returns on a list, whatever the shape of
    its items, the messages are the first parts of the user-authored nodes
    in conversation and mapping order, so there is at most one message per
    node of the mappings. *)
Theorem extract_user_messages_sound (conversations out : list json) :
  Extractor.extract_user_messages (JList conversations) = Ok out ->
  out = Spec.user_utterances conversations /\
  List.length out <= List.length (flat_map Spec.nodes_of conversations).
Proof.
  intros H.
  assert (Hout : out = Spec.user_utterances conversations).
  { unfold Extractor.extract_user_messages in H. cbn [iterate bind] in H.
    unfold Spec.user_utterances.
    apply for_each_ok with (body := Extractor.conversation_messages); [|exact H].
    intros conversation r _. apply conversation_messages_sound. }
  split; [exact Hout|]. subst out. unfold Spec.user_utterances.
  induction conversations as [|c cs IH]; simpl; [lia|].
  rewrite !length_app.
  pose proof (flat_map_short _ _ Spec.contribution (Spec.nodes_of c) contribution_length).
  assert (Hcs : List.length
            (flat_map (fun conversation =>
                         flat_map Spec.contribution (Spec.nodes_of conversation)) cs)
          <= List.length (flat_map Spec.nodes_of cs)).
  { clear IH H. induction cs as [|d ds IHd]; simpl; [lia|].
    rewrite !length_app.
    pose proof (flat_map_short _ _ Spec.contribution (Spec.nodes_of d) contribution_length).
    lia. }
  lia.
Qed.

Lemma extract_user_messages_sound_witness :
  [JStr "a"; JInt 7] = Spec.user_utterances sample_export /\
  List.length [JStr "a"; JInt 7] <= List.length (flat_map Spec.nodes_of sample_export).
Proof.
  exact (extract_user_messages_sound sample_export [JStr "a"; JInt 7] eq_refl).
Defined.

(** X4.  A message that is false in a condition (null, [false], 0, an empty
    string, list or dictionary) is skipped without being read; a message
    that is true and is not a dictionary makes the extractor raise
    [AttributeError]. *)
Theorem message_truth_decides (message : json) (others : list (string * json)) :
  (truthy message = false ->
   Extractor.node_messages (JObj (("message", message) :: others)) = Ok []) /\
  (truthy message = true -> (forall fields, message <> JObj fields) ->
   Extractor.node_messages (JObj (("message", message) :: others))
     = Raise AttributeError).
Proof.
  unfold Extractor.node_messages.
  cbn [get bind lookup String.eqb Ascii.eqb Bool.eqb]. split.
  - intros ->. reflexivity.
  - intros -> Hm. destruct message; try reflexivity.
    exfalso. apply (Hm entries). reflexivity.
Qed.

(** X5.  The content of a message is read only when the role is "user": a
    message of another role is skipped whatever its content is, a user
    message whose content is not a dictionary raises [AttributeError], and
    a user message whose parts are anything but a non-empty list is
    skipped. *)
Theorem content_read_for_users_only :
  (forall role content,
     eq_str role "user" = false ->
     Extractor.node_messages
       (JObj [("message", JObj [("author", JObj [("role", role)]);
                                ("content", content)])]) = Ok []) /\
  (forall content,
     (forall fields, content <> JObj fields) ->
     Extractor.node_messages
       (JObj [("message", JObj [("author", JObj [("role", JStr "user")]);
                                ("content", content)])]) = Raise AttributeError) /\
  (forall parts,
     (forall first rest, parts <> JList (first :: rest)) ->
     Extractor.node_messages
       (JObj [("message", JObj [("author", JObj [("role", JStr "user")]);
                                ("content", JObj [("parts", parts)])])]) = Ok []).
Proof.
  unfold Extractor.node_messages.
  cbn [get bind lookup String.eqb Ascii.eqb Bool.eqb truthy]. split; [|split].
  - intros role content ->. reflexivity.
  - intros content Hc. cbn [eq_str String.eqb Ascii.eqb Bool.eqb].
    destruct content; try reflexivity. exfalso. apply (Hc entries). reflexivity.
  - intros parts Hp. cbn [eq_str String.eqb Ascii.eqb Bool.eqb].
    destruct parts as [| | | | |items|]; try reflexivity.
    destruct items as [|first rest]; [reflexivity|].
    exfalso. apply (Hp first rest). reflexivity.
Qed.

(** ** The frequency table *)

Lemma parse_common_words_eq (messages : list json) (top_n : Z) (f : bool) :
  Parse.common_words_analysis messages top_n f =
  most_common top_n (Counter (parse_counted messages f)).
Proof. unfold Parse.common_words_analysis, parse_counted. destruct f; reflexivity. Qed.

Lemma parse3_common_words_eq (messages : list json) (top_n : Z) (f : bool) :
  Parse3.common_words_analysis messages top_n f =
  most_common top_n (Counter (parse3_counted messages f)).
Proof. unfold Parse3.common_words_analysis, parse3_counted. destruct f; reflexivity. Qed.

Lemma NoDup_same_length (l1 l2 : list string) :
  NoDup l1 -> NoDup l2 -> (forall x, In x l1 <-> In x l2) ->
  List.length l1 = List.length l2.
Proof.
  intros H1 H2 Hmem. apply Permutation_length.
  apply NoDup_Permutation; assumption.
Qed.

(** The table has one entry per distinct word. *)
Lemma table_length (words : list string) :
  List.length (sorted_by_count_desc (Counter words)) =
  List.length (nodup string_dec words).
Proof.
  rewrite (Permutation_length (sorted_by_count_desc_perm (Counter words))).
  rewrite Counter_closed_form, length_map.
  apply NoDup_same_length.
  - apply first_seen_NoDup.
  - apply NoDup_nodup.
  - intros x. rewrite first_seen_In, nodup_In. reflexivity.
Qed.

Lemma most_common_size (words : list string) (top_n top_n' : Z) :
  List.length (most_common top_n (Counter words)) =
    Nat.min (Z.to_nat top_n) (List.length (nodup string_dec words)) /\
  ((top_n <= 0)%Z -> most_common top_n (Counter words) = []) /\
  ((top_n <= top_n')%Z ->
     most_common top_n (Counter words) =
     firstn (Z.to_nat top_n) (most_common top_n' (Counter words))).
Proof.
  unfold most_common. split; [|split].
  - rewrite length_firstn, table_length. reflexivity.
  - intros Hn. replace (Z.to_nat top_n) with 0 by lia. reflexivity.
  - intros Hle. rewrite firstn_firstn.
    replace (Nat.min (Z.to_nat top_n) (Z.to_nat top_n')) with (Z.to_nat top_n) by lia.
    reflexivity.
Qed.

(** X6.  In both scripts and with or without filtering, the result has
    [top_n] entries or, if there are fewer, one per distinct counted word;
    it is empty for [top_n <= 0]; and the result for a smaller [top_n] is
    the beginning of the result for a larger one. *)
Theorem common_words_size (messages : list json) (top_n top_n' : Z) (f : bool) :
  (List.length (Parse.common_words_analysis messages top_n f) =
     Nat.min (Z.to_nat top_n)
             (List.length (nodup string_dec (parse_counted messages f))) /\
   ((top_n <= 0)%Z -> Parse.common_words_analysis messages top_n f = []) /\
   ((top_n <= top_n')%Z ->
      Parse.common_words_analysis messages top_n f =
      firstn (Z.to_nat top_n) (Parse.common_words_analysis messages top_n' f))) /\
  (List.length (Parse3.common_words_analysis messages top_n f) =
     Nat.min (Z.to_nat top_n)
             (List.length (nodup string_dec (parse3_counted messages f))) /\
   ((top_n <= 0)%Z -> Parse3.common_words_analysis messages top_n f = []) /\
   ((top_n <= top_n')%Z ->
      Parse3.common_words_analysis messages top_n f =
      firstn (Z.to_nat top_n) (Parse3.common_words_analysis messages top_n' f))).
Proof.
  rewrite !parse_common_words_eq, !parse3_common_words_eq.
  split; apply most_common_size.
Qed.

Lemma list_sum_perm (l1 l2 : list nat) :
  Permutation l1 l2 -> list_sum l1 = list_sum l2.
Proof.
  induction 1; simpl; lia.
Qed.

Lemma list_sum_firstn (n : nat) (l : list nat) : list_sum (firstn n l) <= list_sum l.
Proof.
  revert n. induction l as [|x l IH]; intros [|n]; simpl; try lia.
  specialize (IH n). lia.
Qed.

(** Over keys without repetition that cover the words, the occurrences add
    up to the number of words. *)
Lemma occurrences_add_up (keys words : list string) :
  NoDup keys -> (forall w, In w words -> In w keys) ->
  list_sum (map (fun k => count_occ string_dec words k) keys) = List.length words.
Proof.
  intros Hnd. induction words as [|w words IH]; intros Hcover.
  - simpl. clear. induction keys as [|k ks IHk]; simpl; [reflexivity|exact IHk].
  - assert (Hone : forall ks, NoDup ks ->
      list_sum (map (fun k => count_occ string_dec (w :: words) k) ks) =
      list_sum (map (fun k => count_occ string_dec words k) ks) +
      (if in_dec string_dec w ks then 1 else 0)).
    { clear. intros ks Hks. induction ks as [|k ks IHk].
      - reflexivity.
      - inversion Hks as [|? ? Hk Hks']; subst. rewrite !map_cons.
        change (list_sum (?x :: ?l)) with (x + list_sum l).
        rewrite (IHk Hks'). cbn [count_occ].
        destruct (string_dec w k) as [->|Hne].
        + destruct (in_dec string_dec k ks) as [Hin|_]; [contradiction|].
          destruct (in_dec string_dec k (k :: ks)) as [_|Hn];
            [lia|exfalso; apply Hn; left; reflexivity].
        + destruct (in_dec string_dec w ks) as [Hin|Hnin];
            destruct (in_dec string_dec w (k :: ks)) as [Hin'|Hnin']; try lia.
          * exfalso. apply Hnin'. right. exact Hin.
          * exfalso. destruct Hin' as [Heq|Hin']; [congruence|contradiction]. }
    rewrite (Hone keys Hnd).
    rewrite IH by (intros x Hx; apply Hcover; right; exact Hx).
    destruct (in_dec string_dec w keys) as [_|Hn]; [simpl; lia|].
    exfalso. apply Hn. apply Hcover. left. reflexivity.
Qed.

Lemma table_total (words : list string) :
  list_sum (map snd (sorted_by_count_desc (Counter words))) = List.length words.
Proof.
  rewrite (list_sum_perm _ _
             (Permutation_map snd (sorted_by_count_desc_perm (Counter words)))).
  rewrite Counter_closed_form, map_map. cbn [snd].
  apply occurrences_add_up.
  - apply first_seen_NoDup.
  - intros w Hw. apply first_seen_In. exact Hw.
Qed.

Lemma most_common_total (words : list string) (top_n : Z) :
  list_sum (map snd (most_common top_n (Counter words))) <= List.length words /\
  (List.length (nodup string_dec words) <= Z.to_nat top_n ->
   list_sum (map snd (most_common top_n (Counter words))) = List.length words).
Proof.
  unfold most_common. split.
  - rewrite <- (table_total words), <- firstn_map. apply list_sum_firstn.
  - intros Hall. rewrite firstn_all2 by (rewrite table_length; exact Hall).
    apply table_total.
Qed.

(** X7.  The counts of a result never add up to more than the number of
    words counted, and add up to exactly that number when [top_n] is at
    least the number of distinct words. *)
Theorem common_words_total (messages : list json) (top_n : Z) (f : bool) :
  (list_sum (map snd (Parse.common_words_analysis messages top_n f))
     <= List.length (parse_counted messages f) /\
   (List.length (nodup string_dec (parse_counted messages f)) <= Z.to_nat top_n ->
    list_sum (map snd (Parse.common_words_analysis messages top_n f))
      = List.length (parse_counted messages f))) /\
  (list_sum (map snd (Parse3.common_words_analysis messages top_n f))
     <= List.length (parse3_counted messages f) /\
   (List.length (nodup string_dec (parse3_counted messages f)) <= Z.to_nat top_n ->
    list_sum (map snd (Parse3.common_words_analysis messages top_n f))
      = List.length (parse3_counted messages f))).
Proof.
  rewrite !parse_common_words_eq, !parse3_common_words_eq.
  split; apply most_common_total.
Qed.

Lemma count_occ_filter (keep : string -> bool) (words : list string) (w : string) :
  keep w = true ->
  count_occ string_dec (filter keep words) w = count_occ string_dec words w.
Proof.
  intros Hw. induction words as [|x words IH]; simpl; [reflexivity|].
  destruct (keep x) eqn:Hx; simpl.
  - rewrite IH. reflexivity.
  - destruct (string_dec x w) as [->|_]; [congruence|exact IH].
Qed.

(** X8.  With [filter_english] on, parse.py only drops the lowercased words
    that are in the stoplist: a token is in the table exactly when it is a
    lowercased word that is not in the stoplist, and its count is the
    number of words that are this token once lowercased.  Nothing is
    stripped and no length is required, so a single letter or a stop word
    with punctuation attached is counted, which parse3.py would drop. *)
Theorem parse_filtered_common_words (messages : list json) (top_n : Z) :
  (exists ranked,
     Spec.ranking (parse_counted messages true) ranked /\
     Parse.common_words_analysis messages top_n true =
       firstn (Z.to_nat top_n) ranked /\
     forall w c, In (w, c) ranked <->
       (exists word, In word (Parse3.words_of messages) /\ w = lower word) /\
       ~ In w Parse.top_english_words /\
       c = List.length (filter (fun word => String.eqb (lower word) w)
                               (Parse3.words_of messages))) /\
  Parse.common_words_analysis [JStr "I saw the cat, the Cat."] 20 true =
    [("i", 1); ("saw", 1); ("cat,", 1); ("cat.", 1)] /\
  Parse3.common_words_analysis [JStr "I saw the cat, the Cat."] 20 true =
    [("cat", 2); ("saw", 1)].
Proof.
  split; [|split; reflexivity].
  exists (sorted_by_count_desc (Counter (parse_counted messages true))).
  split; [apply ranking_of_words|]. split; [apply parse_common_words_eq|].
  intros w c.
  destruct (ranking_of_words (parse_counted messages true)) as [_ [Hin _]].
  rewrite Hin. unfold parse_counted.
  rewrite parse_words_lowercased.
  set (raw := Parse3.words_of messages).
  set (keep := fun word => negb (mem word Parse.top_english_words)).
  rewrite <- count_occ_map_lower.
  assert (Hkeep : forall x, keep x = true <-> ~ In x Parse.top_english_words).
  { intros x. unfold keep. rewrite negb_true_iff, <- mem_In.
    destruct (mem x Parse.top_english_words); split; congruence. }
  split.
  - intros [-> Hpos]. apply (count_occ_In string_dec) in Hpos.
    apply filter_In in Hpos. destruct Hpos as [Hw Hk].
    apply in_map_iff in Hw. destruct Hw as [word [Heq Hword]].
    split; [exists word; split; [exact Hword|symmetry; exact Heq]|].
    split; [apply Hkeep; exact Hk|].
    apply count_occ_filter. exact Hk.
  - intros [[word [Hword ->]] [Hstop ->]].
    assert (Hk : keep (lower word) = true) by (apply Hkeep; exact Hstop).
    split; [symmetry; apply count_occ_filter; exact Hk|].
    apply (count_occ_In string_dec). apply in_map. exact Hword.
Qed.

(** ** Case *)

Lemma lower_char_idem (c : ascii) : lower_char (lower_char c) = lower_char c.
Proof. destruct c as [[] [] [] [] [] [] [] []]; reflexivity. Qed.

Lemma isalpha_lower_char (c : ascii) : isalpha (lower_char c) = isalpha c.
Proof. destruct c as [[] [] [] [] [] [] [] []]; reflexivity. Qed.

Lemma lower_idem (s : string) : lower (lower s) = lower s.
Proof.
  induction s as [|c s IH]; simpl; [reflexivity|].
  rewrite lower_char_idem, IH. reflexivity.
Qed.

Lemma sub_non_alpha_lower (s : string) :
  sub_non_alpha (lower s) = lower (sub_non_alpha s).
Proof.
  induction s as [|c s IH]; simpl; [reflexivity|].
  rewrite isalpha_lower_char. destruct (isalpha c); simpl; rewrite IH; reflexivity.
Qed.

Lemma clean_lower (word : string) : Parse3.clean (lower word) = Parse3.clean word.
Proof.
  unfold Parse3.clean. rewrite sub_non_alpha_lower, lower_idem. reflexivity.
Qed.

Lemma strings_of_lower_messages (messages : list json) :
  strings_of (lower_messages messages) = map lower (strings_of messages).
Proof.
  induction messages as [|m ms IH]; simpl; [reflexivity|].
  destruct m; simpl; rewrite IH; reflexivity.
Qed.

Lemma clean_and_filter_words_lower (words : list string) :
  Parse3.clean_and_filter_words (map lower words) =
  Parse3.clean_and_filter_words words.
Proof.
  induction words as [|w words IH]; cbn [map Parse3.clean_and_filter_words].
  - reflexivity.
  - rewrite clean_lower, IH. reflexivity.
Qed.

Lemma parse3_words_lower (messages : list json) :
  Parse3.words_of (lower_messages messages) = map lower (Parse3.words_of messages).
Proof.
  unfold Parse3.words_of. rewrite strings_of_lower_messages.
  induction (strings_of messages) as [|m ms IH]; simpl; [reflexivity|].
  rewrite map_app, IH. f_equal. apply (split_from_lower m EmptyString).
Qed.

Lemma parse_words_lower (messages : list json) :
  Parse.words_of (lower_messages messages) = Parse.words_of messages.
Proof.
  unfold Parse.words_of. rewrite strings_of_lower_messages.
  induction (strings_of messages) as [|m ms IH]; simpl; [reflexivity|].
  rewrite lower_idem, IH. reflexivity.
Qed.

(** X9.  On messages of ASCII text the case of the messages does not matter
    to parse.py, filtered or not, nor to parse3.py when it filters:
    lowercasing every message beforehand gives the same result.  (Beyond
    ASCII, [str.lower] can turn a character that is not a letter of
    [[a-zA-Z]] into one, so the restriction is needed for parse3.py.) *)
Theorem common_words_ignore_case (messages : list json) (top_n : Z) (f : bool) :
  forallb isascii (strings_of messages) = true ->
  Parse.common_words_analysis (lower_messages messages) top_n f =
    Parse.common_words_analysis messages top_n f /\
  Parse3.common_words_analysis (lower_messages messages) top_n true =
    Parse3.common_words_analysis messages top_n true.
Proof.
  intros _. split.
  - unfold Parse.common_words_analysis. rewrite parse_words_lower. reflexivity.
  - unfold Parse3.common_words_analysis.
    rewrite parse3_words_lower, clean_and_filter_words_lower. reflexivity.
Qed.

Lemma common_words_ignore_case_witness :
  forallb isascii (strings_of [JStr "The Cat saw the CAT"; JInt 1; JStr "a cat's Hat"])
    = true /\
  Parse3.common_words_analysis
    (lower_messages [JStr "The Cat saw the CAT"; JInt 1; JStr "a cat's Hat"]) 2 true =
  Parse3.common_words_analysis
    [JStr "The Cat saw the CAT"; JInt 1; JStr "a cat's Hat"] 2 true /\
  Parse3.common_words_analysis
    [JStr "The Cat saw the CAT"; JInt 1; JStr "a cat's Hat"] 2 true
  = [("cat", 2); ("saw", 1)].
Proof.
  split; [reflexivity|]. split; [|vm_compute; reflexivity].
  exact (proj2 (common_words_ignore_case
                  [JStr "The Cat saw the CAT"; JInt 1; JStr "a cat's Hat"] 2 true
                  eq_refl)).
Defined.

(** ** Cleaning *)

Lemma sub_non_alpha_idem (s : string) :
  sub_non_alpha (sub_non_alpha s) = sub_non_alpha s.
Proof.
  induction s as [|c s IH]; simpl; [reflexivity|].
  destruct (isalpha c) eqn:Hc; simpl; [rewrite Hc, IH; reflexivity|exact IH].
Qed.

Lemma clean_idem (word : string) : Parse3.clean (Parse3.clean word) = Parse3.clean word.
Proof.
  unfold Parse3.clean.
  rewrite sub_non_alpha_lower, sub_non_alpha_idem, lower_idem. reflexivity.
Qed.

Lemma clean_and_filter_words_app (a b : list string) :
  Parse3.clean_and_filter_words (a ++ b) =
  Parse3.clean_and_filter_words a ++ Parse3.clean_and_filter_words b.
Proof.
  induction a as [|w a IH]; cbn [app Parse3.clean_and_filter_words]; [reflexivity|].
  rewrite IH.
  destruct ((1 <? String.length (Parse3.clean w)) &&
            negb (mem (Parse3.clean w) Parse3.top_english_words)); reflexivity.
Qed.

(** X10.  Cleaning and filtering a list of words that has already been
    cleaned and filtered changes nothing; the function works word by word,
    so it distributes over concatenation and never returns more words than
    it was given. *)
Theorem clean_and_filter_words_idempotent (words more : list string) :
  Parse3.clean_and_filter_words (Parse3.clean_and_filter_words words) =
    Parse3.clean_and_filter_words words /\
  Parse3.clean_and_filter_words (words ++ more) =
    Parse3.clean_and_filter_words words ++ Parse3.clean_and_filter_words more /\
  List.length (Parse3.clean_and_filter_words words) <= List.length words.
Proof.
  split; [|split; [apply clean_and_filter_words_app|]].
  - induction words as [|w words IH]; cbn [Parse3.clean_and_filter_words].
    + reflexivity.
    + destruct ((1 <? String.length (Parse3.clean w)) &&
                negb (mem (Parse3.clean w) Parse3.top_english_words)) eqn:Hkeep.
      * cbn [Parse3.clean_and_filter_words]. rewrite clean_idem, Hkeep, IH.
        reflexivity.
      * exact IH.
  - induction words as [|w words IH]; cbn [Parse3.clean_and_filter_words].
    + simpl. lia.
    + destruct ((1 <? String.length (Parse3.clean w)) &&
                negb (mem (Parse3.clean w) Parse3.top_english_words)); simpl; lia.
Qed.

(** ** Tokens *)

Lemma no_space_snoc (cur : string) (c : ascii) :
  forallb (fun c => negb (isspace c)) (list_ascii_of_string cur) = true ->
  isspace c = false ->
  forallb (fun c => negb (isspace c))
          (list_ascii_of_string (cur ++ String c EmptyString)) = true.
Proof.
  intros Hcur Hc. induction cur as [|d cur IH]; simpl in *.
  - rewrite Hc. reflexivity.
  - apply andb_prop in Hcur. destruct Hcur as [Hd Hrest].
    rewrite Hd, (IH Hrest). reflexivity.
Qed.

Lemma split_from_words (s cur : string) :
  forallb (fun c => negb (isspace c)) (list_ascii_of_string cur) = true ->
  Forall is_word (split_from cur s).
Proof.
  revert cur. induction s as [|c s IH]; intros cur Hcur; simpl.
  - destruct cur; constructor; [|constructor].
    split; [discriminate|exact Hcur].
  - destruct (isspace c) eqn:Hc.
    + destruct cur.
      * apply IH. reflexivity.
      * constructor; [split; [discriminate|exact Hcur]|]. apply IH. reflexivity.
    + apply IH. apply no_space_snoc; assumption.
Qed.

Lemma lower_is_word (w : string) : is_word w -> is_word (lower w).
Proof.
  intros [Hne Hsp]. split.
  - destruct w; [contradiction|discriminate].
  - clear Hne. induction w as [|c w IH]; simpl in *; [reflexivity|].
    apply andb_prop in Hsp. destruct Hsp as [Hc Hw].
    rewrite isspace_lower_char, Hc, (IH Hw). reflexivity.
Qed.

Lemma words_of_are_words (messages : list json) :
  Forall is_word (Parse3.words_of messages).
Proof.
  unfold Parse3.words_of. induction (strings_of messages) as [|m ms IH]; simpl.
  - constructor.
  - apply Forall_app. split; [|exact IH].
    apply split_from_words. reflexivity.
Qed.

(** X11.  Without filtering, every token that either script counts is a
    word: it is not empty and contains no whitespace. *)
Theorem unfiltered_tokens_are_words (messages : list json) (top_n : Z) :
  Forall (fun entry => is_word (fst entry))
         (Parse.common_words_analysis messages top_n false) /\
  Forall (fun entry => is_word (fst entry))
         (Parse3.common_words_analysis messages top_n false).
Proof.
  assert (Hgen : forall words, Forall is_word words ->
    Forall (fun entry => is_word (fst entry)) (most_common top_n (Counter words))).
  { intros words Hwords. apply Forall_forall. intros [w c] Hin.
    unfold most_common in Hin. apply In_firstn in Hin.
    destruct (ranking_of_words words) as [_ [Htab _]].
    apply Htab in Hin. destruct Hin as [-> Hpos].
    apply (count_occ_In string_dec) in Hpos.
    rewrite Forall_forall in Hwords. apply Hwords. exact Hpos. }
  split; apply Hgen.
  - rewrite parse_words_lowercased.
    pose proof (words_of_are_words messages) as Hw.
    induction Hw as [|w ws Hw Hws IH]; simpl; constructor.
    + apply lower_is_word. exact Hw.
    + exact IH.
  - apply words_of_are_words.
Qed.

(** ** The stoplist excerpt *)

(** X12.  [print_english_words count] is the beginning of the stoplist: its
    first [count] words for a count from 0 to 100, the whole list for a
    larger count, and for a negative count the list without its last
    [-count] words (nothing once that reaches 100). *)
Theorem print_english_words_prefix (count : Z) :
  (exists rest, Parse3.print_english_words count ++ rest = Parse3.top_english_words) /\
  List.length (Parse3.print_english_words count) =
    Z.to_nat (if (0 <=? count)%Z then Z.min count 100 else Z.max 0 (100 + count)) /\
  ((100 <= count)%Z -> Parse3.print_english_words count = Parse3.top_english_words).
Proof.
  assert (Hlen : List.length Parse3.top_english_words = 100) by reflexivity.
  unfold Parse3.print_english_words.
  destruct (Z.leb_spec 0 count) as [Hpos|Hneg].
  - split; [|split].
    + exists (skipn (Z.to_nat count) Parse3.top_english_words). apply firstn_skipn.
    + rewrite length_firstn, Hlen. lia.
    + intros Hbig. apply firstn_all2. rewrite Hlen. lia.
  - split; [|split].
    + exists (skipn (List.length Parse3.top_english_words - Z.to_nat (- count))
                    Parse3.top_english_words).
      apply firstn_skipn.
    + rewrite length_firstn, Hlen. lia.
    + intros Hbig. lia.
Qed.

(** ** Which messages are questions *)

(** X13.  A string message is taken for a question exactly when it is some
    text, a question mark and then nothing but whitespace. *)
Theorem question_iff_trailing_mark (messages : list json) (q : string) :
  In q (Shared.questions_of messages) <->
  In (JStr q) messages /\
  exists body tail, q = (body ++ "?" ++ tail)%string /\ all_space tail.
Proof.
  rewrite questions_of_In, question_shape. reflexivity.
Qed.

(** ** Thresholds *)

Lemma dot_square (x y d a b : Z) :
  (0 <= x -> 0 <= y -> 0 <= d -> 0 <= a -> 0 <= b -> d * d <= a * b ->
   (x * y + d) * (x * y + d) <= (x * x + a) * (y * y + b))%Z.
Proof.
  intros Hx Hy Hd Ha Hb Hdab.
  assert (H : (2 * (x * y * d) <= x * x * b + y * y * a)%Z).
  { destruct (Z_le_gt_dec (2 * (x * y * d)) (x * x * b + y * y * a)) as [|Hgt];
      [assumption|].
    exfalso.
    pose proof (Z.square_nonneg (x * x * b - y * y * a)) as Hsq.
    assert (H1 : ((x*x*b + y*y*a) * (x*x*b + y*y*a)
                  < (2*(x*y*d)) * (2*(x*y*d)))%Z) by nia.
    assert (H2 : ((2*(x*y*d)) * (2*(x*y*d)) <= 4 * (x*x) * (y*y) * (a*b))%Z).
    { replace ((2*(x*y*d)) * (2*(x*y*d)))%Z
        with (4 * (x*x) * (y*y) * (d*d))%Z by ring.
      apply Z.mul_le_mono_nonneg_l; [nia|assumption]. }
    nia. }
  nia.
Qed.

(** The inequality of Cauchy and Schwarz for rows of counts. *)
Lemma dot_cauchy_schwarz (u v : list nat) :
  dot u v * dot u v <= dot u u * dot v v.
Proof.
  revert v. induction u as [|x u IH]; intros v; [simpl; lia|].
  destruct v as [|y v]; [simpl; lia|]. cbn [dot].
  specialize (IH v).
  apply Nat2Z.inj_le. rewrite !Nat2Z.inj_mul, !Nat2Z.inj_add, !Nat2Z.inj_mul.
  apply dot_square; try lia.
  all: rewrite <- !Nat2Z.inj_mul; apply Nat2Z.inj_le; exact IH.
Qed.

(** The exact cosine of two rows of counts lies between 0 and 1. *)
Lemma cosine_bounds (u v : list nat) :
  (0 <= cosine_similarity u v <= 1)%R.
Proof.
  unfold cosine_similarity.
  destruct ((dot u u =? 0) || (dot v v =? 0)) eqn:Hz; [lra|].
  apply orb_false_iff in Hz. destruct Hz as [Hu Hv].
  apply Nat.eqb_neq in Hu, Hv.
  set (a := INR (dot u u)). set (b := INR (dot v v)). set (d := INR (dot u v)).
  assert (Ha : (0 < a)%R) by (apply lt_0_INR; lia).
  assert (Hb : (0 < b)%R) by (apply lt_0_INR; lia).
  assert (Hd : (0 <= d)%R) by apply pos_INR.
  assert (Hs : (0 < sqrt a * sqrt b)%R)
    by (apply Rmult_lt_0_compat; apply sqrt_lt_R0; assumption).
  assert (Hcs : (d * d <= a * b)%R).
  { unfold a, b, d. rewrite <- !mult_INR. apply le_INR. apply dot_cauchy_schwarz. }
  assert (Hds : (d <= sqrt a * sqrt b)%R).
  { rewrite <- sqrt_mult by lra. rewrite <- (sqrt_square d) by exact Hd.
    apply sqrt_le_1; nra. }
  split.
  - apply Rmult_le_pos; [exact Hd|]. left. apply Rinv_0_lt_compat. exact Hs.
  - apply (Rmult_le_reg_r (sqrt a * sqrt b)); [exact Hs|].
    unfold Rdiv. rewrite Rmult_assoc, Rinv_l, Rmult_1_r, Rmult_1_l by lra.
    exact Hds.
Qed.

Lemma filter_none (A : Type) (keep : A -> bool) (l : list A) :
  (forall x, In x l -> keep x = false) -> filter keep l = [].
Proof.
  induction l as [|x l IH]; intros H; simpl; [reflexivity|].
  rewrite (H x (or_introl eq_refl)). apply IH. intros y Hy. apply H. right. exact Hy.
Qed.

Lemma filter_all (A : Type) (keep : A -> bool) (l : list A) :
  (forall x, In x l -> keep x = true) -> filter keep l = l.
Proof.
  induction l as [|x l IH]; intros H; simpl; [reflexivity|].
  rewrite (H x (or_introl eq_refl)). f_equal. apply IH.
  intros y Hy. apply H. right. exact Hy.
Qed.

Section Thresholds.

Context {Sim : Similarity}.

(** The detector as a filter over the index pairs. *)
Lemma detector_as_filter (messages : list json) (threshold : Q) :
  vocabulary (Shared.questions_of messages) <> [] ->
  let questions := Shared.questions_of messages in
  let X := map (count_vector (vocabulary questions)) questions in
  Shared.question_rephrasing_analysis messages threshold =
  Ok (firstn 5
        (map (fun p => (nth (fst p) questions "", nth (snd p) questions ""))
             (filter (fun p => similarity_exceeds (nth (fst p) X []) (nth (snd p) X [])
                                                  threshold)
                     (Spec.index_pairs (List.length questions))))).
Proof.
  intros Hvocab questions X. unfold Shared.question_rephrasing_analysis.
  fold questions. rewrite (fit_transform_ok questions Hvocab). fold X.
  cbn [bind]. f_equal. f_equal.
  apply (comprehension_as_filter (string * string)
           (fun i j => similarity_exceeds (nth i X []) (nth j X []) threshold)
           (fun i j => (nth i questions "", nth j questions ""))).
Qed.

(** X14.  When the vectoriser fits, a threshold of 1 plus the rounding or
    more returns no pair at all, the cosine of two rows of counts being at
    most 1; and a threshold below zero by more than the rounding returns
    the first five of all the pairs of questions, the cosine never being
    negative. *)
Theorem extreme_thresholds (messages : list json) (threshold : Q) :
  vocabulary (Shared.questions_of messages) <> [] ->
  let questions := Shared.questions_of messages in
  ((1 + rounding <= threshold)%Q ->
     Shared.question_rephrasing_analysis messages threshold = Ok []) /\
  ((threshold + rounding < 0)%Q ->
     Shared.question_rephrasing_analysis messages threshold =
     Ok (firstn 5
           (map (fun p => (nth (fst p) questions "", nth (snd p) questions ""))
                (Spec.index_pairs (List.length questions))))).
Proof.
  intros Hvocab questions.
  rewrite (detector_as_filter messages threshold Hvocab). fold questions.
  assert (H1 : Q2R 1 = 1%R) by (unfold Q2R; simpl; lra).
  assert (H0 : Q2R 0 = 0%R) by (unfold Q2R; simpl; lra).
  split.
  - intros Hhigh. rewrite filter_none; [reflexivity|].
    intros p _. apply similarity_below.
    apply Qle_Rle in Hhigh. rewrite Q2R_plus, H1 in Hhigh.
    pose proof (cosine_bounds
      (nth (fst p) (map (count_vector (vocabulary questions)) questions) [])
      (nth (snd p) (map (count_vector (vocabulary questions)) questions) [])).
    lra.
  - intros Hlow. rewrite filter_all; [reflexivity|].
    intros p _. apply similarity_above.
    apply Qlt_Rlt in Hlow. rewrite Q2R_plus, H0 in Hlow.
    pose proof (cosine_bounds
      (nth (fst p) (map (count_vector (vocabulary questions)) questions) [])
      (nth (snd p) (map (count_vector (vocabulary questions)) questions) [])).
    lra.
Qed.

(** X15.  A question with a token that occurs twice among the questions is
    always detected: for every threshold below 1 by more than the rounding
    the result is not empty. *)
Theorem repeated_question_detected
  (messages : list json) (threshold : Q) (q : string)
  (before between after : list string) :
  Shared.questions_of messages = before ++ q :: between ++ q :: after ->
  tokenize q <> [] ->
  (threshold + rounding < 1)%Q ->
  exists pair rest,
    Shared.question_rephrasing_analysis messages threshold = Ok (pair :: rest).
Proof.
  intros Hq Htok Hlt.
  assert (Hin : In q (Shared.questions_of messages))
    by (rewrite Hq; apply in_or_app; right; left; reflexivity).
  assert (Hvocab : vocabulary (Shared.questions_of messages) <> []).
  { intros Hnil. apply vocabulary_nil in Hnil.
    destruct (tokenize q) as [|t ts] eqn:Et; [contradiction|].
    assert (Ht : In t (flat_map tokenize (Shared.questions_of messages))).
    { apply in_flat_map. exists q. split; [exact Hin|]. rewrite Et. left. reflexivity. }
    rewrite Hnil in Ht. destruct Ht. }
  rewrite (detector_as_filter messages threshold Hvocab).
  set (questions := Shared.questions_of messages) in *.
  set (X := map (count_vector (vocabulary questions)) questions).
  set (i := List.length before).
  set (j := List.length before + S (List.length between)).
  assert (Hqi : nth i questions "" = q).
  { unfold i. rewrite Hq, app_nth2, Nat.sub_diag by lia. reflexivity. }
  assert (Hqj : nth j questions "" = q).
  { unfold j. rewrite Hq, app_nth2 by lia.
    replace (List.length before + S (List.length between) - List.length before)
      with (S (List.length between)) by lia.
    cbn [nth]. rewrite app_nth2, Nat.sub_diag by lia. reflexivity. }
  assert (Hlen : List.length questions =
                 List.length before + S (List.length between + S (List.length after))).
  { rewrite Hq. rewrite length_app. cbn [List.length]. rewrite length_app.
    cbn [List.length]. reflexivity. }
  assert (Hrow : forall k, k < List.length questions ->
            nth k X [] = count_vector (vocabulary questions) (nth k questions "")).
  { intros k Hk. unfold X.
    rewrite (nth_indep _ [] (count_vector (vocabulary questions) "")).
    - apply (map_nth (count_vector (vocabulary questions))).
    - rewrite length_map. exact Hk. }
  assert (Hkept : In (i, j)
    (filter (fun p => similarity_exceeds (nth (fst p) X []) (nth (snd p) X []) threshold)
            (Spec.index_pairs (List.length questions)))).
  { apply filter_In. split.
    - apply index_pairs_In. unfold i, j. lia.
    - cbn [fst snd]. rewrite !Hrow by (unfold i, j; lia). rewrite Hqi, Hqj.
      apply similarity_above.
      rewrite cosine_self by (apply count_vector_not_zero; assumption).
      apply Qlt_Rlt in Hlt. rewrite Q2R_plus in Hlt.
      replace (Q2R 1) with 1%R in Hlt by (unfold Q2R; simpl; lra). exact Hlt. }
  destruct (filter _ (Spec.index_pairs (List.length questions))) as [|p ps];
    [destruct Hkept|].
  cbn [map firstn]. eexists. eexists. reflexivity.
Qed.

End Thresholds.

Lemma extreme_thresholds_witness :
  Shared.question_rephrasing_analysis (S := Toy.raised_similarity)
    six_questions (3 # 2) = Ok [] /\
  Shared.question_rephrasing_analysis (S := Toy.raised_similarity)
    [JStr "what is a monad?"; JStr "how do loops work?"] (- (1 # 10))
    = Ok [("what is a monad?", "how do loops work?")].
Proof.
  split.
  - apply (extreme_thresholds (Sim := Toy.raised_similarity) six_questions (3 # 2)).
    + vm_compute. discriminate.
    + vm_compute. discriminate.
  - apply (extreme_thresholds (Sim := Toy.raised_similarity)
             [JStr "what is a monad?"; JStr "how do loops work?"] (- (1 # 10))).
    + vm_compute. discriminate.
    + reflexivity.
Defined.

Lemma repeated_question_detected_witness :
  exists pair rest,
    Shared.question_rephrasing_analysis (S := Toy.exact_similarity)
      [JStr "why?"; JStr "is it done?"; JStr "so"; JStr "why not?"; JStr "is it done?"]
      (9 # 10) = Ok (pair :: rest).
Proof.
  apply (repeated_question_detected (Sim := Toy.exact_similarity)
           [JStr "why?"; JStr "is it done?"; JStr "so"; JStr "why not?"; JStr "is it done?"]
           (9 # 10) "is it done?" ["why?"] ["why not?"] []).
  - reflexivity.
  - vm_compute. discriminate.
  - reflexivity.
Defined.

(** ** The topic model on any parameters *)

Section TopicEdges.

Context {N : Numeric}.

(** X16.  When the documents leave a term and [num_topics >= 1], each
    topic lists the beginning of an ordering of the whole vocabulary by
    decreasing weight: [top_words] terms for [top_words >= 0] (all of them
    if there are fewer, none for 0), and for a negative [top_words] all
    the terms but the [-top_words] of lowest weight. *)
Theorem topic_lists_for_any_top_words
  (messages : list json) (num_topics top_words : Z) (ambient : generator) :
  tfidf_terms (strings_of messages) <> [] ->
  (1 <= num_topics)%Z ->
  let X := fit_tfidf (strings_of messages) in
  let n := List.length (feature_names X) in
  exists topics,
    fst (Shared.topic_modeling_analysis messages num_topics top_words ambient)
      = Ok topics /\
    Forall2
      (fun weights terms =>
         List.length terms = kept_terms top_words n /\
         exists order,
           Permutation order (seq 0 n) /\
           StronglySorted (fun i j => (nth j weights 0 <= nth i weights 0)%Q) order /\
           terms = map (fun i => nth i (feature_names X) "")
                       (firstn (kept_terms top_words n) order))
      (fst (lda_infer (RandomState 42) num_topics X))
      (map snd topics).
Proof.
  intros Hterms Hk X n.
  destruct (lda_shape (RandomState 42) num_topics X Hk) as [_ Hcols].
  eexists. split.
  - rewrite (topic_modeling_analysis_ok messages num_topics top_words ambient Hterms Hk).
    reflexivity.
  - fold X. rewrite map_map. cbn [snd].
    rewrite <- (map_map snd
      (fun row => Shared.top_words_list (feature_names X) row top_words)).
    rewrite enumerate_snd.
    induction Hcols as [|row rows Hrow Hcols IH]; cbn [map]; constructor; [|exact IH].
    destruct (descending_order row) as [Hperm Hsorted].
    rewrite Hrow in Hperm. fold n in Hperm.
    assert (Hlen : List.length (rev (argsort row)) = n).
    { rewrite (Permutation_length Hperm), length_seq. reflexivity. }
    assert (Hslice : Shared.top_slice (argsort row) top_words =
                     firstn (kept_terms top_words n) (rev (argsort row))).
    { unfold Shared.top_slice, kept_terms.
      destruct (Z.leb_spec 0 top_words) as [Hpos|Hneg].
      - destruct (Nat.le_ge_cases (Z.to_nat top_words) n) as [Hle|Hge].
        + rewrite Nat.min_l by exact Hle. reflexivity.
        + rewrite Nat.min_r by exact Hge.
          rewrite !firstn_all2 by (rewrite Hlen; lia). reflexivity.
      - pose proof Hlen as Hlen'. rewrite length_rev in Hlen'.
        rewrite Hlen'. reflexivity. }
    unfold Shared.top_words_list. rewrite Hslice. split.
    + rewrite length_map, length_firstn, Hlen. unfold kept_terms.
      destruct (0 <=? top_words)%Z; lia.
    + exists (rev (argsort row)). split; [exact Hperm|]. split; [exact Hsorted|].
      reflexivity.
Qed.

(** X17.  The vectoriser is fitted first: when the documents leave no
    term the topic model raises [ValueError] whatever [num_topics] is;
    when they leave one and [num_topics] is below 1 the estimator refuses
    the parameter and no topic is returned.  In every case the
    process-wide generator is left as it was. *)
Theorem topic_model_errors
  (messages : list json) (num_topics top_words : Z) (ambient : generator) :
  (tfidf_terms (strings_of messages) = [] ->
   Shared.topic_modeling_analysis messages num_topics top_words ambient
     = (Raise ValueError, ambient)) /\
  (tfidf_terms (strings_of messages) <> [] -> (num_topics < 1)%Z ->
   exists e,
     Shared.topic_modeling_analysis messages num_topics top_words ambient
       = (Raise e, ambient)) /\
  snd (Shared.topic_modeling_analysis messages num_topics top_words ambient) = ambient.
Proof.
  unfold Shared.topic_modeling_analysis, TfidfVectorizer_fit_transform,
    LatentDirichletAllocation_fit.
  split; [|split].
  - intros ->. reflexivity.
  - intros Hterms Hk. destruct (tfidf_terms (strings_of messages)); [contradiction|].
    destruct (Z.ltb_spec num_topics 1); [eexists; reflexivity|lia].
  - destruct (tfidf_terms (strings_of messages)); [reflexivity|].
    destruct (num_topics <? 1)%Z; reflexivity.
Qed.

End TopicEdges.

Lemma topic_lists_for_any_top_words_witness :
  fst (Shared.topic_modeling_analysis (N := Toy.numeric)
         [JStr "cats chase mice"; JStr "the dogs and cats"] 1 (-1) 0%Z)
  = Ok [("Topic 0", ["mice"; "dogs"; "chase"])].
Proof.
  assert (Hterms : tfidf_terms (N := Toy.numeric)
            (strings_of [JStr "cats chase mice"; JStr "the dogs and cats"]) <> [])
    by (vm_compute; discriminate).
  destruct (topic_lists_for_any_top_words (N := Toy.numeric)
              [JStr "cats chase mice"; JStr "the dogs and cats"] 1 (-1) 0%Z
              Hterms ltac:(lia))
    as [topics [Hres _]].
  rewrite Hres. vm_compute in Hres. injection Hres as <-. reflexivity.
Defined.

(** ** The command line *)

Section CommandLine.

Context {N : Numeric} {Sim : Similarity}.

(** X18.  parse3.py without any analysis flag runs the three analyses, and
    so it does when the only request is to print 0 English words, 0 being
    false in a condition: both runs are the run with the three flags
    set. *)
Theorem parse3_default_runs_all (conversations : json) (ambient : generator)
  (filter_english_words : bool) (top_n num_topics top_words : Z) (threshold : Q) :
  let run cw tm rq pew :=
    Cli.parse3_main conversations
      {| Cli.common_words := cw; Cli.topic_modeling := tm; Cli.rephrasing := rq;
         Cli.print_english_words := pew;
         Cli.filter_english_words := filter_english_words;
         Cli.top_n := top_n; Cli.num_topics := num_topics;
         Cli.top_words := top_words; Cli.similarity_threshold := threshold |}
      ambient in
  run false false false None = run true true true None /\
  run false false false (Some 0%Z) = run true true true None.
Proof.
  unfold Cli.parse3_main, Cli.any_analysis. cbn [Cli.common_words Cli.topic_modeling
    Cli.rephrasing Cli.print_english_words Cli.wanted Z.eqb negb orb].
  split; reflexivity.
Qed.

(** X19.  parse.py has no such default: without a flag, or with a count of
    0 as the only request, it prints nothing, and it fails only if the
    extraction does. *)
Theorem parse_without_flags_prints_nothing (conversations : json)
  (ambient : generator)
  (filter_english_words : bool) (top_n num_topics top_words : Z) (threshold : Q) :
  let run pew :=
    Cli.parse_main conversations
      {| Cli.common_words := false; Cli.topic_modeling := false;
         Cli.rephrasing := false; Cli.print_english_words := pew;
         Cli.filter_english_words := filter_english_words;
         Cli.top_n := top_n; Cli.num_topics := num_topics;
         Cli.top_words := top_words; Cli.similarity_threshold := threshold |}
      ambient in
  let outcome :=
    match Extractor.extract_user_messages conversations with
    | Ok _ => None
    | Raise e => Some e
    end in
  run None = (([], outcome), ambient) /\
  run (Some 0%Z) = (([], outcome), ambient).
Proof.
  unfold Cli.parse_main, Parse.extract_user_messages.
  cbn [Cli.common_words Cli.topic_modeling Cli.rephrasing Cli.print_english_words
       Cli.wanted Z.eqb negb].
  destruct (Extractor.extract_user_messages conversations); split; reflexivity.
Qed.

(** X20.  When no question of the messages has a token, every run that
    includes the rephrasing analysis ends in an exception.  parse3.py,
    which formats its results at the end, then has no result at all, with
    or without flags; parse.py has printed the common words by then if
    they were asked for. *)
Theorem run_without_question
  (conversations : json) (messages : list json) (a : Cli.args)
  (ambient : generator) :
  Extractor.extract_user_messages conversations = Ok messages ->
  flat_map tokenize (Shared.questions_of messages) = [] ->
  (Cli.rephrasing a || negb (Cli.any_analysis a) = true ->
   exists e, fst (Cli.parse3_main conversations a ambient) = Raise e) /\
  (Cli.rephrasing a = true ->
   exists out e,
     fst (Cli.parse_main conversations a ambient) = (out, Some e) /\
     (Cli.common_words a = true ->
      In (Cli.CommonWords (Cli.top_n a) (Cli.filter_english_words a)
            (Parse.common_words_analysis messages (Cli.top_n a)
               (Cli.filter_english_words a)))
         out)).
Proof.
  intros Hextract Hnone.
  assert (Hraise : Shared.question_rephrasing_analysis messages
                     (Cli.similarity_threshold a) = Raise ValueError).
  { unfold Shared.question_rephrasing_analysis.
    rewrite fit_transform_raises by (apply vocabulary_nil; exact Hnone).
    reflexivity. }
  split.
  - intros Hrun. unfold Cli.parse3_main, Parse3.extract_user_messages.
    rewrite Hextract.
    unfold Parse3.topic_modeling_analysis, Parse3.question_rephrasing_analysis.
    rewrite Hrun, Hraise.
    destruct (if Cli.topic_modeling a || negb (Cli.any_analysis a)
              then Shared.topic_modeling_analysis messages
                     (Cli.num_topics a) (Cli.top_words a) ambient
              else (Ok [], ambient)) as [[topics|e] g].
    + exists ValueError. reflexivity.
    + exists e. reflexivity.
  - intros Hrun. unfold Cli.parse_main, Parse.extract_user_messages.
    rewrite Hextract. unfold Parse.question_rephrasing_analysis.
    rewrite Hrun, Hraise.
    destruct (if Cli.topic_modeling a
              then Cli.print_topics messages (Cli.num_topics a) (Cli.top_words a) ambient
              else (Ok [], ambient)) as [[lines|e] g]; cbn [fst].
    + eexists. exists ValueError. split; [reflexivity|].
      intros ->. apply in_or_app. left. apply in_or_app. right. left. reflexivity.
    + eexists. exists e. split; [reflexivity|].
      intros ->. apply in_or_app. right. left. reflexivity.
Qed.

End CommandLine.

Lemma run_without_question_witness :
  (exists e,
     fst (Cli.parse3_main (N := Toy.numeric) (S := Toy.exact_similarity)
            (JList sample_export)
            {| Cli.common_words := false; Cli.topic_modeling := false;
               Cli.rephrasing := false; Cli.print_english_words := None;
               Cli.filter_english_words := false; Cli.top_n := 20;
               Cli.num_topics := 10; Cli.top_words := 10;
               Cli.similarity_threshold := 1 # 2 |} 0%Z) = Raise e) /\
  exists out e,
    fst (Cli.parse_main (N := Toy.numeric) (S := Toy.exact_similarity)
           (JList sample_export)
           {| Cli.common_words := true; Cli.topic_modeling := false;
              Cli.rephrasing := true; Cli.print_english_words := None;
              Cli.filter_english_words := false; Cli.top_n := 20;
              Cli.num_topics := 10; Cli.top_words := 10;
              Cli.similarity_threshold := 1 # 2 |} 0%Z) = (out, Some e) /\
    In (Cli.CommonWords 20 false [("a", 1)]) out.
Proof.
  split.
  - apply (run_without_question (N := Toy.numeric) (Sim := Toy.exact_similarity)
             (JList sample_export) [JStr "a"; JInt 7] _ 0%Z eq_refl eq_refl).
    reflexivity.
  - destruct (run_without_question (N := Toy.numeric) (Sim := Toy.exact_similarity)
                (JList sample_export) [JStr "a"; JInt 7]
                {| Cli.common_words := true; Cli.topic_modeling := false;
                   Cli.rephrasing := true; Cli.print_english_words := None;
                   Cli.filter_english_words := false; Cli.top_n := 20;
                   Cli.num_topics := 10; Cli.top_words := 10;
                   Cli.similarity_threshold := 1 # 2 |} 0%Z eq_refl eq_refl)
      as [_ Hparse].
    destruct (Hparse eq_refl) as [out [e [Hout Hin]]].
    exists out, e. split; [exact Hout|]. apply Hin. reflexivity.
Defined.

Lemma set_item_new (key : string) (v : Cli.value) (d : Cli.results) :
  ~ In key (map fst d) -> Cli.set_item key v d = d ++ [(key, v)].
Proof.
  induction d as [|[k old] d IH]; simpl; intros Hnin.
  - reflexivity.
  - destruct (String.eqb_spec k key) as [->|Hne].
    + exfalso. apply Hnin. left. reflexivity.
    + rewrite IH; [reflexivity|]. intros Hin. apply Hnin. right. exact Hin.
Qed.

(** Updating with keys that are new and distinct appends the entries. *)
Lemma update_new (d new : Cli.results) :
  NoDup (map fst new) ->
  (forall k, In k (map fst new) -> ~ In k (map fst d)) ->
  Cli.update d new = d ++ new.
Proof.
  unfold Cli.update. revert d.
  induction new as [|[k v] new IH]; intros d Hnd Hfresh; simpl.
  - rewrite app_nil_r. reflexivity.
  - inversion Hnd as [|? ? Hk Hnd']; subst.
    rewrite set_item_new by (apply Hfresh; left; reflexivity).
    rewrite IH.
    + rewrite <- app_assoc. reflexivity.
    + exact Hnd'.
    + intros k' Hk' Hin. rewrite map_app in Hin. apply in_app_or in Hin.
      destruct Hin as [Hin|[Heq|[]]].
      * apply (Hfresh k'); [right; exact Hk'|exact Hin].
      * simpl in Heq. subst k'. contradiction.
Qed.

Lemma topic_key_other (i : nat) :
  Shared.topic_key i <> "top_english_words" /\
  Shared.topic_key i <> "common_words" /\
  Shared.topic_key i <> "similar_questions".
Proof.
  unfold Shared.topic_key. repeat split; simpl; discriminate.
Qed.

Lemma topic_keys_NoDup (n : nat) : NoDup (map Shared.topic_key (seq 0 n)).
Proof.
  pose proof (seq_NoDup n 0) as Hseq.
  induction Hseq as [|i l Hi Hl IH]; simpl; constructor; [|exact IH].
  intros Hin. apply in_map_iff in Hin. destruct Hin as [j [Hj Hjl]].
  apply topic_key_inj in Hj. subst j. contradiction.
Qed.

Section Layout.

Context {N : Numeric} {Sim : Similarity}.

(** The keys of the topics, whenever the topic model returns. *)
Lemma topic_keys (messages : list json) (num_topics top_words : Z)
  (ambient : generator) (topics : list (string * list string)) :
  fst (Shared.topic_modeling_analysis messages num_topics top_words ambient)
    = Ok topics ->
  map fst topics = map Shared.topic_key (seq 0 (List.length topics)).
Proof.
  unfold Shared.topic_modeling_analysis, LatentDirichletAllocation_fit.
  destruct (TfidfVectorizer_fit_transform (strings_of messages)) as [X|e];
    [|discriminate].
  destruct (num_topics <? 1)%Z; [discriminate|]. cbn [fst].
  intros H. injection H as <-.
  rewrite (topics_loop
             (fun row => Shared.top_words_list (feature_names X) row top_words)
             (fst (lda_infer (RandomState 42) num_topics X)) 0 [])
    by (intros i _ []).
  cbn [app]. rewrite length_map, map_map. cbn [fst].
  rewrite <- (map_map fst Shared.topic_key), enumerate_fst.
  rewrite <- (length_map fst), enumerate_fst, length_seq. reflexivity.
Qed.

(** X21.  A run of parse3.py that succeeds hands over one dictionary with,
    in this order, the English words if a count other than 0 was asked
    for, the common words, one entry per topic and the similar questions,
    each present exactly when its analysis ran; no entry replaces another,
    the keys being all different. *)
Theorem parse3_results_layout
  (conversations : json) (messages : list json) (a : Cli.args)
  (ambient : generator) (res : Cli.results) :
  Extractor.extract_user_messages conversations = Ok messages ->
  fst (Cli.parse3_main conversations a ambient) = Ok res ->
  let run_all := negb (Cli.any_analysis a) in
  let english :=
    match Cli.print_english_words a with
    | Some count =>
        if Cli.wanted (Some count)
        then [("top_english_words", Cli.Words (Parse3.print_english_words count))]
        else []
    | None => []
    end in
  let common :=
    if Cli.common_words a || run_all
    then [("common_words",
           Cli.Counts (Parse3.common_words_analysis
                         messages (Cli.top_n a) (Cli.filter_english_words a)))]
    else [] in
  exists topics similar,
    (if Cli.topic_modeling a || run_all
     then fst (Parse3.topic_modeling_analysis
                 messages (Cli.num_topics a) (Cli.top_words a) ambient) = Ok topics
     else topics = []) /\
    (if Cli.rephrasing a || run_all
     then exists pairs,
            Parse3.question_rephrasing_analysis
              messages (Cli.similarity_threshold a) = Ok pairs /\
            similar = [("similar_questions", Cli.Pairs pairs)]
     else similar = []) /\
    res = english ++ common
            ++ map (fun kv => (fst kv, Cli.Words (snd kv))) topics ++ similar /\
    NoDup (map fst res).
Proof.
  intros Hextract Hres run_all english common.
  unfold Cli.parse3_main, Parse3.extract_user_messages in Hres.
  rewrite Hextract in Hres. fold run_all in Hres.
  (* the first two updates *)
  set (r1 := match Cli.print_english_words a with
             | Some count =>
                 if Cli.wanted (Some count)
                 then Cli.update []
                        [("top_english_words",
                          Cli.Words (Parse3.print_english_words count))]
                 else []
             | None => []
             end) in Hres.
  assert (H1 : r1 = english).
  { unfold r1, english. destruct (Cli.print_english_words a) as [count|]; [|reflexivity].
    destruct (Cli.wanted (Some count)); reflexivity. }
  set (r2 := if Cli.common_words a || run_all
             then Cli.update r1
                    [("common_words",
                      Cli.Counts (Parse3.common_words_analysis messages (Cli.top_n a)
                                    (Cli.filter_english_words a)))]
             else r1) in Hres.
  assert (Hkeys1 : forall k, In k (map fst english) -> k = "top_english_words").
  { intros k. unfold english. destruct (Cli.print_english_words a) as [count|];
      [|intros []]. destruct (Cli.wanted (Some count)); [|intros []].
    intros [<-|[]]. reflexivity. }
  assert (Hnd1 : NoDup (map fst english)).
  { unfold english. destruct (Cli.print_english_words a) as [count|];
      [|constructor]. destruct (Cli.wanted (Some count)); [|constructor].
    constructor; [intros []|constructor]. }
  assert (H2 : r2 = english ++ common).
  { unfold r2, common. rewrite H1. destruct (Cli.common_words a || run_all).
    - apply update_new.
      + constructor; [intros []|constructor].
      + intros k [<-|[]] Hin. apply Hkeys1 in Hin. discriminate Hin.
    - rewrite app_nil_r. reflexivity. }
  assert (Hkeys2 : forall k, In k (map fst (english ++ common)) ->
                             k = "top_english_words" \/ k = "common_words").
  { intros k Hin. rewrite map_app in Hin. apply in_app_or in Hin.
    destruct Hin as [Hin|Hin]; [left; apply Hkeys1; exact Hin|].
    unfold common in Hin. destruct (Cli.common_words a || run_all); [|destruct Hin].
    destruct Hin as [<-|[]]. right. reflexivity. }
  assert (Hnd2 : NoDup (map fst (english ++ common))).
  { rewrite map_app. apply NoDup_app; [exact Hnd1| |].
    - unfold common. destruct (Cli.common_words a || run_all); [|constructor].
      constructor; [intros []|constructor].
    - intros k Hk Hc. apply Hkeys1 in Hk. subst k.
      unfold common in Hc. destruct (Cli.common_words a || run_all); [|destruct Hc].
      destruct Hc as [Hc|[]]. discriminate Hc. }
  rewrite H2 in Hres. clear r1 r2 H1 H2.
  (* the topics *)
  unfold Parse3.topic_modeling_analysis, Parse3.question_rephrasing_analysis in *.
  destruct (if Cli.topic_modeling a || run_all
            then Shared.topic_modeling_analysis messages
                   (Cli.num_topics a) (Cli.top_words a) ambient
            else (Ok [], ambient)) as [[topics|e] g] eqn:Htopics;
    [|discriminate Hres].
  assert (Htk : map fst topics = map Shared.topic_key (seq 0 (List.length topics))).
  { destruct (Cli.topic_modeling a || run_all).
    - apply (topic_keys messages (Cli.num_topics a) (Cli.top_words a) ambient).
      rewrite Htopics. reflexivity.
    - injection Htopics as <- _. reflexivity. }
  set (entries := map (fun kv : string * list string => (fst kv, Cli.Words (snd kv)))
                      topics) in *.
  assert (Hek : map fst entries = map Shared.topic_key (seq 0 (List.length topics))).
  { unfold entries. rewrite map_map. cbn [fst]. exact Htk. }
  assert (H3 : Cli.update (english ++ common) entries = (english ++ common) ++ entries).
  { apply update_new.
    - rewrite Hek. apply topic_keys_NoDup.
    - intros k Hk Hin. rewrite Hek in Hk. apply in_map_iff in Hk.
      destruct Hk as [i [<- _]]. apply Hkeys2 in Hin.
      destruct (topic_key_other i) as [Ha [Hb _]].
      destruct Hin as [Hin|Hin]; [exact (Ha Hin)|exact (Hb Hin)]. }
  rewrite H3 in Hres.
  assert (Hnd3 : NoDup (map fst ((english ++ common) ++ entries))).
  { rewrite map_app. apply NoDup_app; [exact Hnd2| |].
    - rewrite Hek. apply topic_keys_NoDup.
    - intros k Hin Hk. rewrite Hek in Hk. apply in_map_iff in Hk.
      destruct Hk as [i [<- _]]. apply Hkeys2 in Hin.
      destruct (topic_key_other i) as [Ha [Hb _]].
      destruct Hin as [Hin|Hin]; [exact (Ha Hin)|exact (Hb Hin)]. }
  assert (Hfresh : ~ In "similar_questions" (map fst ((english ++ common) ++ entries))).
  { rewrite map_app. intros Hin. apply in_app_or in Hin. destruct Hin as [Hin|Hin].
    - apply Hkeys2 in Hin. destruct Hin as [Hin|Hin]; discriminate Hin.
    - rewrite Hek in Hin. apply in_map_iff in Hin. destruct Hin as [i [Hi _]].
      destruct (topic_key_other i) as [_ [_ Hc]]. exact (Hc Hi). }
  exists topics.
  destruct (Cli.rephrasing a || run_all).
  - destruct (Shared.question_rephrasing_analysis messages (Cli.similarity_threshold a))
      as [pairs|e] eqn:Hpairs; [|discriminate Hres].
    cbn [fst] in Hres.
    rewrite (update_new ((english ++ common) ++ entries)
               [("similar_questions", Cli.Pairs pairs)]) in Hres.
    2: { constructor; [intros []|constructor]. }
    2: { intros k [<-|[]]. exact Hfresh. }
    assert (Hr : res = ((english ++ common) ++ entries)
                         ++ [("similar_questions", Cli.Pairs pairs)])
      by (injection Hres; auto).
    clear Hres. subst res.
    exists [("similar_questions", Cli.Pairs pairs)].
    split; [destruct (Cli.topic_modeling a || run_all);
            [rewrite Htopics; reflexivity|injection Htopics as <- _; reflexivity]|].
    split; [exists pairs; split; reflexivity|].
    split; [rewrite <- !app_assoc; reflexivity|].
    rewrite map_app. apply NoDup_app; [exact Hnd3| |].
    + constructor; [intros []|constructor].
    + intros k Hin [<-|[]]. exact (Hfresh Hin).
  - cbn [fst] in Hres.
    assert (Hr : res = (english ++ common) ++ entries) by (injection Hres; auto).
    clear Hres. subst res.
    exists [].
    split; [destruct (Cli.topic_modeling a || run_all);
            [rewrite Htopics; reflexivity|injection Htopics as <- _; reflexivity]|].
    split; [reflexivity|].
    split; [rewrite app_nil_r, <- app_assoc; reflexivity|exact Hnd3].
Qed.

End Layout.

Lemma parse3_results_layout_witness :
  exists res,
    fst (Cli.parse3_main (N := Toy.numeric) (S := Toy.exact_similarity)
           two_questions_export default_args 0%Z) = Ok res /\
    map fst res = ["common_words"; "Topic 0"; "similar_questions"] /\
    NoDup (map fst res).
Proof.
  eexists. split; [vm_compute; reflexivity|]. split; [reflexivity|].
  destruct (parse3_results_layout (N := Toy.numeric) (Sim := Toy.exact_similarity)
              two_questions_export [JStr "is it so?"; JStr "it is so ?"]
              default_args 0%Z _ eq_refl eq_refl)
    as [topics [similar [_ [_ [_ Hnd]]]]].
  exact Hnd.
Defined.

Section PrintedTopics.

Context {N : Numeric}.

(** X22.  The two scripts report the same topics: parse.py raises exactly
    when parse3.py does, with the same exception, and otherwise prints one
    line per entry of the dictionary of parse3.py, in the same order, with
    the number of the topic that is in the key and the same words. *)
Theorem printed_topics_match
  (messages : list json) (num_topics top_words : Z) (ambient : generator) :
  match Cli.print_topics messages num_topics top_words ambient,
        Shared.topic_modeling_analysis messages num_topics top_words ambient with
  | (Ok lines, g1), (Ok topics, g2) =>
      g1 = g2 /\
      lines = map (fun it => Cli.Topic (fst it) (snd (snd it)))
                  (Shared.enumerate 0 topics) /\
      map fst topics = map Shared.topic_key (seq 0 (List.length topics))
  | (Raise e1, g1), (Raise e2, g2) => e1 = e2 /\ g1 = g2
  | _, _ => False
  end.
Proof.
  unfold Cli.print_topics, Shared.topic_modeling_analysis,
    LatentDirichletAllocation_fit.
  destruct (TfidfVectorizer_fit_transform (strings_of messages)) as [X|e];
    [|split; reflexivity].
  destruct (num_topics <? 1)%Z; [split; reflexivity|].
  set (components := fst (lda_infer (RandomState 42) num_topics X)).
  rewrite (topics_loop
             (fun row => Shared.top_words_list (feature_names X) row top_words)
             components 0 []) by (intros i _ []).
  cbn [app]. split; [reflexivity|]. split.
  - set (entry := fun row => Shared.top_words_list (feature_names X) row top_words).
    assert (Hshape : forall start (rows : list (list Q)),
      map (fun it => Cli.Topic (fst it) (entry (snd it))) (Shared.enumerate start rows) =
      map (fun it => Cli.Topic (fst it) (snd (snd it)))
          (Shared.enumerate start
             (map (fun it => (Shared.topic_key (fst it), entry (snd it)))
                  (Shared.enumerate start rows)))).
    { intros start rows. revert start.
      induction rows as [|row rows IH]; intros start; simpl; [reflexivity|].
      rewrite IH. reflexivity. }
    apply Hshape.
  - rewrite length_map, map_map. cbn [fst].
    rewrite <- (map_map fst Shared.topic_key), enumerate_fst.
    rewrite <- (length_map fst), enumerate_fst, length_seq. reflexivity.
Qed.

End PrintedTopics.
